(** * go-blip: latency sampling, bounded history and chart data

    A shallow embedding of the three programs of [src/main.go]
    (the single-target WebSocket server, the two-target WebSocket server
    and the desktop application with its 60-sample history and chart),
    followed by the properties of the sampling-and-retention core.

    Conventions.
    - [int64] values and [time.Duration] (nanoseconds) are [Z].
    - A [time.Time] carries a wall-clock reading and, when it comes from
      [time.Now], a monotonic reading; [UTC] strips the monotonic one.
    - The network, the clock and the socket are the environment: what a
      call returned and how long it took are inputs of the model, the
      requests issued and the frames written are recorded in a trace.
    - A run-time panic (nil dereference, index out of range) is a result
      of its own, [Panic]. *)

From Stdlib Require Import ZArith String Floats.SpecFloat.
From stdpp Require Import base tactics option list strings.

Local Open Scope string_scope.
Local Open Scope list_scope.
Local Open Scope Z_scope.

(** ** Effects: state passing with panics *)

Inductive res (S A : Type) : Type :=
| Done (a : A) (s : S)
| Panic (msg : string).
Arguments Done {S A} a s.
Arguments Panic {S A} msg.

Definition M (S A : Type) : Type := S -> res S A.

#[global] Instance M_ret {S} : MRet (M S) := fun A a s => Done a s.

#[global] Instance M_bind {S} : MBind (M S) := fun A B k m s =>
  match m s with
  | Done a s' => k a s'
  | Panic msg => Panic msg
  end.

Definition panic {S A} (msg : string) : M S A := fun _ => Panic msg.

(** ** package time *)

Record Time : Type := mkTime {
  wall : Z;            (* wall clock, nanoseconds since the epoch *)
  mono : option Z      (* monotonic reading, when present *)
}.

Record Clock : Type := mkClock { clk_wall : Z; clk_mono : Z }.

Definition Time_UTC (t : Time) : Time := mkTime (wall t) None.

(** [t.Before(u)]: the monotonic readings decide when both are present. *)
Definition Time_Before (t u : Time) : bool :=
  match mono t, mono u with
  | Some a, Some b => a <? b
  | _, _ => wall t <? wall u
  end.

(** [t.Sub(u)], as used by [time.Since]. *)
Definition Time_Sub (t u : Time) : Z :=
  match mono t, mono u with
  | Some a, Some b => a - b
  | _, _ => wall t - wall u
  end.

(** [d.Milliseconds()]: integer division of the nanosecond count,
    truncated towards zero as Go's [/] is. *)
Definition Milliseconds (d : Z) : Z := Z.quot d 1000000.

Definition Second : Z := 1000000000.

(** ** The environment *)

Inductive Event : Type :=
| EvGet (url : string)            (* http.Get(url) was issued *)
| EvBodyClose (url : string)      (* resp.Body.Close() *)
| EvLog (msg : string)            (* log.Println *)
| EvSleep (d : Z)                 (* time.Sleep(d) *)
| EvWrite (data : string) (ok : bool)   (* conn.WriteMessage *)
| EvConnClose                     (* deferred conn.Close() *)
| EvTickerStop.                   (* deferred ticker.Stop() *)

Record Env : Type := mkEnv { clock : Clock; trace : list Event }.

(** How time passes during a blocking call: the monotonic clock advances
    by [d_mono]; the wall clock moves by [d_wall], which an adjustment of
    the system time can make anything. *)
Record Elapse : Type := mkElapse { d_mono : Z; d_wall : Z }.

(** What one [http.Get] returned: [(resp, err)] and the time it took. *)
Record GetOutcome : Type := mkGet {
  resp : option string;     (* the *http.Response, nil when [None] *)
  err : option string;      (* the error, nil when [None] *)
  took : Elapse
}.

Definition emit {S} (upd : S -> Event -> S) (e : Event) : M S unit :=
  fun s => Done tt (upd s e).

Definition env_emit (s : Env) (e : Event) : Env :=
  mkEnv (clock s) (trace s ++ [e]).

Definition env_pass (s : Env) (el : Elapse) : Env :=
  mkEnv (mkClock (clk_wall (clock s) + d_wall el) (clk_mono (clock s) + d_mono el))
        (trace s).

Definition time_Now : M Env Time :=
  fun s => Done (mkTime (clk_wall (clock s)) (Some (clk_mono (clock s)))) s.

Definition time_Since (start : Time) : M Env Z :=
  now ← time_Now; mret (Time_Sub now start).

Definition log_Println (msg : string) : M Env unit := emit env_emit (EvLog msg).

(** [http.Get(url)] with the outcome the environment gives it. *)
Definition http_Get (url : string) (o : GetOutcome) : M Env (option string * option string) :=
  fun s => Done (resp o, err o) (env_pass (env_emit s (EvGet url)) (took o)).

(** [resp.Body.Close()]: dereferences [resp]. *)
Definition Body_Close (url : string) (r : option string) : M Env unit :=
  match r with
  | Some _ => emit env_emit (EvBodyClose url)
  | None => panic "invalid memory address or nil pointer dereference"
  end.

Definition time_Sleep (d : Z) (over : Elapse) : M Env unit :=
  fun s => Done tt (env_pass (env_emit s (EvSleep d))
                             (mkElapse (d + d_mono over) (d + d_wall over))).

(** ** The probe

    The same seven statements appear five times in the source, once per
    target and program:
<<
      start := time.Now()
      resp, err := http.Get(url)
      latency := time.Since(start).Milliseconds()
      if err != nil {
          log.Println(label, err)
          latency = -1
      } else {
          resp.Body.Close()
      }
>>
*)
Definition probe (label url : string) (o : GetOutcome) : M Env Z :=
  start ← time_Now;
  r ← http_Get url o;
  d ← time_Since start;
  let latency := Milliseconds d in
  match r.2 with
  | Some e => log_Println (label +:+ " " +:+ e);; mret (-1)
  | None => Body_Close url r.1;; mret latency
  end.

(** A Go [(value, error)] pair of a collaborator the model does not look
    into. *)
Inductive result (A : Type) : Type :=
| Ok (a : A)
| Err (e : string).
Arguments Ok {A} a.
Arguments Err {A} e.

(** [float64(x)] of an [int64]: the nearest binary64, ties to even. *)
Definition float64 (x : Z) : spec_float := binary_normalize 53 1024 x 0 false.

(** The zero [time.Time] (January 1, year 1, UTC) and the zero float. *)
Definition Time_zero : Time := mkTime (-62135596800 * Second) None.
Definition float64_zero : spec_float := S754_zero false.

(** [a[i] = v] on a slice: a run-time panic when [i] is out of range. *)
Definition store_at {A} (i : nat) (v : A) (a : list A) : option (list A) :=
  if decide (i < length a)%nat then Some (<[i:=v]> a) else None.

(** ** The desktop program: history and chart (third file of main.go) *)

Module Desktop.

Record PingResult : Type := mkPingResult {
  Timestamp : Time;
  GstaticLatency : Z;     (* in milliseconds *)
  ApenwarrLatency : Z     (* in milliseconds *)
}.

Definition gstaticURL : string := "https://www.gstatic.com/generate_204".
Definition apenwarrURL : string := "https://apenwarr.ca".

(** The package-level [results]; [resultsMu] is modelled by taking each
    critical section as one atomic step. *)
Record World : Type := mkWorld { env : Env; results : list PingResult }.

Definition lift_env {A} (m : M Env A) : M World A :=
  fun w => match m (env w) with
           | Done a e => Done a (mkWorld e (results w))
           | Panic msg => Panic msg
           end.

(** The critical section of [doPings]: append, then keep the most
    recent 60. *)
Definition record (r : PingResult) (rs : list PingResult) : list PingResult :=
  let rs := rs ++ [r] in
  if decide (60 < length rs)%nat then drop (length rs - 60) rs else rs.

Definition with_results (f : list PingResult -> list PingResult) : M World unit :=
  fun w => Done tt (mkWorld (env w) (f (results w))).

(** What the environment does during one round. *)
Record RoundEnv : Type := mkRound {
  getG : GetOutcome;
  getA : GetOutcome;
  oversleep : Elapse      (* how much longer than asked the sleep lasted *)
}.

(** One iteration of the [for] loop of [doPings]. *)
Definition round (e : RoundEnv) : M World unit :=
  now ← lift_env time_Now;
  gLatency ← lift_env (probe "gstatic ping error:" gstaticURL (getG e));
  aLatency ← lift_env (probe "apenwarr ping error:" apenwarrURL (getA e));
  with_results (record (mkPingResult now gLatency aLatency));;
  lift_env (time_Sleep (1 * Second) (oversleep e)).

(** [doPings] never returns; its state after the rounds of [es]. *)
Fixpoint doPings (es : list RoundEnv) : M World unit :=
  match es with
  | [] => mret tt
  | e :: es => round e;; doPings es
  end.

(** The data handed to go-chart; axis formatters and the legend are
    presentation only. *)
Record TimeSeries : Type := mkSeries {
  Name : string;
  XValues : list Time;
  YValues : list spec_float
}.

Record Chart : Type := mkChart { Series : list TimeSeries }.

(** The loop [for i, r := range results] writing the three arrays. *)
Fixpoint fill (i : nat) (rs : list PingResult)
    (arrays : list Time * list spec_float * list spec_float)
    : option (list Time * list spec_float * list spec_float) :=
  match rs with
  | [] => Some arrays
  | r :: rs =>
      let '(xValues, yValuesG, yValuesA) := arrays in
      xValues ← store_at i (Timestamp r) xValues;
      yValuesG ← store_at i (float64 (GstaticLatency r)) yValuesG;
      yValuesA ← store_at i (float64 (ApenwarrLatency r)) yValuesA;
      fill (S i) rs (xValues, yValuesG, yValuesA)
  end.

Definition graph_of (arrays : list Time * list spec_float * list spec_float) : Chart :=
  let '(xValues, yValuesG, yValuesA) := arrays in
  mkChart [ mkSeries ("gstatic" +:+ " (" +:+ gstaticURL +:+ ")") xValues yValuesG;
            mkSeries ("apenwarr" +:+ " (" +:+ apenwarrURL +:+ ")") xValues yValuesA ].

(** The arrays of [n] zero values, filled from [rs], and the chart
    made of them; [None] when a write is out of range. *)
Definition chart_data (n : nat) (rs : list PingResult) : option Chart :=
  graph_of <$> fill 0 rs (replicate n Time_zero,
                          replicate n float64_zero,
                          replicate n float64_zero).

Section Render.
(** The rasterizer: [graph.Render(chart.PNG, buffer)] and
    [image.Decode(buffer)]. *)
Context {Image : Type}.
Variable graph_Render : Chart -> result string.
Variable image_Decode : string -> result Image.

(** First critical section of [renderChart]: [n := len(results)]. *)
Definition renderChart_len : M World nat :=
  fun w => Done (length (results w)) w.

(** The rest of [renderChart], from [if n < 2]; the second critical
    section lasts until the function returns. [None] is [nil]. *)
Definition renderChart_rest (n : nat) : M World (option Image) :=
  if decide (n < 2)%nat then mret None
  else
    rs ← (fun w => Done (results w) w);
    match chart_data n rs with
    | None => panic "index out of range"
    | Some graph =>
        match graph_Render graph with
        | Err e => lift_env (log_Println ("Error rendering chart:" +:+ " " +:+ e));;
                   mret None
        | Ok buffer =>
            match image_Decode buffer with
            | Err e => lift_env (log_Println ("Error decoding chart image:" +:+ " " +:+ e));;
                       mret None
            | Ok img => mret (Some img)
            end
        end
    end.

(** [renderChart] when nothing runs between its two critical
    sections. *)
Definition renderChart : M World (option Image) :=
  n ← renderChart_len; renderChart_rest n.

(** [renderChart] with what the other goroutines do to the world
    between the unlock of line 282 and the lock of line 287. *)
Definition renderChart_interleaved (between : M World unit) : M World (option Image) :=
  n ← renderChart_len; between;; renderChart_rest n.
End Render.

End Desktop.

(** ** The WebSocket programs (first and second file of main.go) *)

(** Where a handler stands after an iteration of its [for] loop:
    [Continue], it waits for the next tick; [Return], it has returned. *)
Inductive flow : Type := Continue | Return.

(** [conn.WriteMessage(websocket.TextMessage, data)], with the error the
    socket gives. *)
Definition conn_WriteMessage (data : string) (werr : option string) : M Env (option string) :=
  emit env_emit (EvWrite data (bool_decide (werr = None)));; mret werr.

(** The deferred calls of [wsHandler], last deferred first. *)
Definition deferred : M Env unit :=
  emit env_emit EvTickerStop;; emit env_emit EvConnClose.

Module WsSingle.

Record PingResult : Type := mkPingResult {
  Timestamp : Time;
  Latency : Z             (* in milliseconds *)
}.

Definition targetURL : string := "https://www.gstatic.com/generate_204".

(** What the environment does during one tick. *)
Record TickEnv : Type := mkTick {
  tick : Time;                  (* the value received from ticker.C *)
  get : GetOutcome;
  write_err : option string     (* the error of WriteMessage, if any *)
}.

Section Handler.
Variable json_Marshal : PingResult -> result string.

(** The [PingResult] of one tick. *)
Definition measure (t : TickEnv) : M Env PingResult :=
  latency ← probe "Ping error:" targetURL (get t);
  mret (mkPingResult (Time_UTC (tick t)) latency).

Definition iteration (t : TickEnv) : M Env flow :=
  result ← measure t;
  match json_Marshal result with
  | Err e => log_Println ("JSON Marshal error:" +:+ " " +:+ e);; mret Continue
  | Ok data =>
      werr ← conn_WriteMessage data (write_err t);
      match werr with
      | Some e => log_Println ("WebSocket Write error:" +:+ " " +:+ e);; mret Return
      | None => mret Continue
      end
  end.

Fixpoint serve (ticks : list TickEnv) : M Env flow :=
  match ticks with
  | [] => mret Continue
  | t :: ticks =>
      f ← iteration t;
      match f with
      | Continue => serve ticks
      | Return => mret Return
      end
  end.

Definition wsHandler (upgrade_err : option string) (ticks : list TickEnv) : M Env flow :=
  match upgrade_err with
  | Some e => log_Println ("Upgrade error:" +:+ " " +:+ e);; mret Return
  | None =>
      f ← serve ticks;
      match f with
      | Continue => mret Continue
      | Return => deferred;; mret Return
      end
  end.
End Handler.

End WsSingle.

Module WsDual.

Record PingResult : Type := mkPingResult {
  Timestamp : Time;
  GstaticLatency : Z;     (* in milliseconds *)
  ApenwarrLatency : Z     (* in milliseconds *)
}.

Definition gstaticURL : string := "https://www.gstatic.com/generate_204".
Definition apenwarrURL : string := "https://apenwarr.ca".

Record TickEnv : Type := mkTick {
  tick : Time;
  getG : GetOutcome;
  getA : GetOutcome;
  write_err : option string
}.

Section Handler.
Variable json_Marshal : PingResult -> result string.

Definition measure (t : TickEnv) : M Env PingResult :=
  gLatency ← probe "Gstatic ping error:" gstaticURL (getG t);
  aLatency ← probe "Apennwarr ping error:" apenwarrURL (getA t);
  mret (mkPingResult (Time_UTC (tick t)) gLatency aLatency).

Definition iteration (t : TickEnv) : M Env flow :=
  result ← measure t;
  match json_Marshal result with
  | Err e => log_Println ("JSON Marshal error:" +:+ " " +:+ e);; mret Continue
  | Ok data =>
      werr ← conn_WriteMessage data (write_err t);
      match werr with
      | Some e => log_Println ("WebSocket Write error:" +:+ " " +:+ e);; mret Return
      | None => mret Continue
      end
  end.

Fixpoint serve (ticks : list TickEnv) : M Env flow :=
  match ticks with
  | [] => mret Continue
  | t :: ticks =>
      f ← iteration t;
      match f with
      | Continue => serve ticks
      | Return => mret Return
      end
  end.

Definition wsHandler (upgrade_err : option string) (ticks : list TickEnv) : M Env flow :=
  match upgrade_err with
  | Some e => log_Println ("Upgrade error:" +:+ " " +:+ e);; mret Return
  | None =>
      f ← serve ticks;
      match f with
      | Continue => mret Continue
      | Return => deferred;; mret Return
      end
  end.

End Handler.

End WsDual.

(** ** Vocabulary of the properties *)

(** The last [n] elements of a list, in order. *)
Definition lastN {A} (n : nat) (l : list A) : list A := drop (length l - n) l.

(** The store after the samples of [l] were recorded one by one. *)
Definition appends (l rs : list Desktop.PingResult) : list Desktop.PingResult :=
  foldl (λ rs r, Desktop.record r rs) rs l.

(** What [http.Get] and the monotonic clock guarantee of an outcome: a nil
    error comes with a response, and time does not run backwards. *)
Definition GetOutcome_ok (o : GetOutcome) : Prop :=
  (err o = None → resp o ≠ None) ∧ 0 ≤ d_mono (took o).

(** The latency a probe records for an outcome. *)
Definition probe_value (o : GetOutcome) : Z :=
  match err o with
  | Some _ => -1
  | None => Milliseconds (d_mono (took o))
  end.

(** The events a probe leaves in the trace. *)
Definition probe_events (label url : string) (o : GetOutcome) : list Event :=
  EvGet url ::
  match err o with
  | Some e => [EvLog (label +:+ " " +:+ e)]
  | None => [EvBodyClose url]
  end.

Arguments probe_events : simpl never.

(** The state a probe leaves: the clock moved by the time the call took,
    the trace extended by the probe's events. *)
Definition probe_env (label url : string) (o : GetOutcome) (s : Env) : Env :=
  mkEnv (clock (env_pass s (took o))) (trace s ++ probe_events label url o).

(** The URLs requested in a trace, in order. *)
Definition requests (t : list Event) : list string :=
  omap (λ ev, match ev with EvGet url => Some url | _ => None end) t.

(** [time.Now()] in a given state. *)
Definition now_of (s : Env) : Time :=
  mkTime (clk_wall (clock s)) (Some (clk_mono (clock s))).

(** The sample a round of [doPings] assembles, and the environment it
    leaves. *)
Definition round_sample (e : Desktop.RoundEnv) (s : Env) : Desktop.PingResult :=
  Desktop.mkPingResult (now_of s)
    (probe_value (Desktop.getG e)) (probe_value (Desktop.getA e)).

Definition round_env (e : Desktop.RoundEnv) (s : Env) : Env :=
  let s := probe_env "gstatic ping error:" Desktop.gstaticURL (Desktop.getG e) s in
  let s := probe_env "apenwarr ping error:" Desktop.apenwarrURL (Desktop.getA e) s in
  env_pass (env_emit s (EvSleep (1 * Second)))
           (mkElapse (1 * Second + d_mono (Desktop.oversleep e))
                     (1 * Second + d_wall (Desktop.oversleep e))).

Definition RoundEnv_ok (e : Desktop.RoundEnv) : Prop :=
  GetOutcome_ok (Desktop.getG e) ∧ GetOutcome_ok (Desktop.getA e)
  ∧ 0 ≤ d_mono (Desktop.oversleep e).

(** The timestamps of a store grow from each sample to every later one,
    in the order of [Time.Before]. *)
Definition stamps_increasing (rs : list Desktop.PingResult) : Prop :=
  ∀ i j a b, (i < j)%nat → rs !! i = Some a → rs !! j = Some b →
    Time_Before (Desktop.Timestamp a) (Desktop.Timestamp b) = true.

(** Every timestamp of a store was read from the monotonic clock before
    it showed [c]. *)
Definition stamps_before (c : Z) (rs : list Desktop.PingResult) : Prop :=
  Forall (λ a, ∃ m, mono (Desktop.Timestamp a) = Some m ∧ m < c) rs.

(** The outcome no [http.Get] gives: neither a response nor an error. *)
Definition get_nil (o : GetOutcome) : bool :=
  match err o, resp o with
  | None, None => true
  | _, _ => false
  end.

(** The record a tick of the two-target handler assembles, how its
    iteration ends, and the events it leaves. *)
Definition tick_result (t : WsDual.TickEnv) : WsDual.PingResult :=
  WsDual.mkPingResult (Time_UTC (WsDual.tick t))
    (probe_value (WsDual.getG t)) (probe_value (WsDual.getA t)).

Definition tick_flow (json_Marshal : WsDual.PingResult → result string)
    (t : WsDual.TickEnv) : flow :=
  match json_Marshal (tick_result t), WsDual.write_err t with
  | Ok _, Some _ => Return
  | _, _ => Continue
  end.

Definition tick_events (json_Marshal : WsDual.PingResult → result string)
    (t : WsDual.TickEnv) : list Event :=
  probe_events "Gstatic ping error:" WsDual.gstaticURL (WsDual.getG t)
  ++ probe_events "Apennwarr ping error:" WsDual.apenwarrURL (WsDual.getA t)
  ++ match json_Marshal (tick_result t) with
     | Err e => [EvLog ("JSON Marshal error:" +:+ " " +:+ e)]
     | Ok data =>
         EvWrite data (bool_decide (WsDual.write_err t = None))
         :: match WsDual.write_err t with
            | Some e => [EvLog ("WebSocket Write error:" +:+ " " +:+ e)]
            | None => []
            end
     end.

Arguments tick_events : simpl never.

Definition tick_clock (t : WsDual.TickEnv) (c : Clock) : Clock :=
  mkClock (clk_wall c + d_wall (took (WsDual.getG t)) + d_wall (took (WsDual.getA t)))
          (clk_mono c + d_mono (took (WsDual.getG t)) + d_mono (took (WsDual.getA t))).

Definition TickEnv_ok (t : WsDual.TickEnv) : Prop :=
  GetOutcome_ok (WsDual.getG t) ∧ GetOutcome_ok (WsDual.getA t).

(** The frames a trace shows as written, with the result of each write. *)
Definition writes (tr : list Event) : list (string * bool) :=
  omap (λ ev, match ev with EvWrite data ok => Some (data, ok) | _ => None end) tr.

(** The chart of a snapshot: one point per sample and target. *)
Definition stamps (rs : list Desktop.PingResult) : list Time :=
  Desktop.Timestamp <$> rs.

Definition valuesG (rs : list Desktop.PingResult) : list spec_float :=
  (λ r, float64 (Desktop.GstaticLatency r)) <$> rs.

Definition valuesA (rs : list Desktop.PingResult) : list spec_float :=
  (λ r, float64 (Desktop.ApenwarrLatency r)) <$> rs.

Definition chart_of (rs : list Desktop.PingResult) : Desktop.Chart :=
  Desktop.graph_of (stamps rs, valuesG rs, valuesA rs).

(** The world after a line was logged. *)
Definition logged (msg : string) (w : Desktop.World) : Desktop.World :=
  Desktop.mkWorld (env_emit (Desktop.env w) (EvLog msg)) (Desktop.results w).

(** The binary64 number -1.0: negative, mantissa 2^52, exponent -52. *)
Definition float64_minus_one : spec_float := S754_finite true 4503599627370496 (-52).

(** Sample data for the closed instances below. *)
Definition sample_at (i : Z) : Desktop.PingResult :=
  Desktop.mkPingResult (mkTime (i * Second) (Some (i * Second))) (10 + i) (-1).

Definition samples_from (a : Z) (n : nat) : list Desktop.PingResult :=
  sample_at <$> seqZ a (Z.of_nat n).

Definition env0 : Env := mkEnv (mkClock 1700000000000000000 5000) [].

Definition get_ok (ns : Z) : GetOutcome :=
  mkGet (Some "204 No Content") None (mkElapse ns ns).

Definition get_failed (ns : Z) : GetOutcome :=
  mkGet None (Some "dial tcp: i/o timeout") (mkElapse ns ns).

Definition round_B_down : Desktop.RoundEnv :=
  Desktop.mkRound (get_ok 10000000) (get_failed 2000000000) (mkElapse 150000 150000).

Definition tick_G_down : WsDual.TickEnv :=
  WsDual.mkTick (mkTime 1700000001000000000 (Some 1000005000))
    (get_failed 2000000000) (get_ok 10000000) None.

Definition round_ok_1 : Desktop.RoundEnv :=
  Desktop.mkRound (get_ok 10000000) (get_ok 250000000) (mkElapse 80000 (-3000000000)).

Definition clock0 : Clock := mkClock 1700000000000000000 5000.

(** A JSON encoder for the closed instances: any total encoder does. *)
Definition marshal_stub (r : WsDual.PingResult) : result string :=
  Ok (if decide (WsDual.GstaticLatency r = -1) then "{G:-1}" else "{G:ok}").

Definition tick_ok_1 : WsDual.TickEnv :=
  WsDual.mkTick (mkTime 1700000000000000000 (Some 5000))
    (get_ok 10000000) (get_ok 250000000) None.

Definition tick_write_fails : WsDual.TickEnv :=
  WsDual.mkTick (mkTime 1700000001000000000 (Some 1000005000))
    (get_ok 10000000) (get_failed 2000000000) (Some "broken pipe").

(** Two samples, the second with a failed gstatic probe. *)
Definition snapshot_G_down : list Desktop.PingResult :=
  [ Desktop.mkPingResult (mkTime 1700000000000000000 (Some 5000)) 10 250;
    Desktop.mkPingResult (mkTime 1700000001300000000 (Some 1300005000)) (-1) 240 ].

(** Three rounds from the empty history, and the world they leave. *)
Definition three_rounds : list Desktop.RoundEnv := [round_ok_1; round_B_down; round_ok_1].

Definition world_after_three_rounds : Desktop.World :=
  let s1 := round_env round_ok_1 env0 in
  let s2 := round_env round_B_down s1 in
  Desktop.mkWorld (round_env round_ok_1 s2)
    (appends [round_sample round_ok_1 env0; round_sample round_B_down s1;
              round_sample round_ok_1 s2] []).

(** Unfolds the state-passing combinators down to the world they build. *)
Ltac run_M :=
  unfold probe, time_Since, time_Now, http_Get, log_Println, Body_Close,
    time_Sleep, conn_WriteMessage, deferred, emit, panic, env_emit, env_pass,
    mbind, M_bind, mret, M_ret in *;
  cbn in *.

(** ** The update loop of the desktop program

    The goroutine started in [main] of the third file: once a second it
    reads the length of the history under the lock and either shows the
    placeholder or asks [renderChart] for a new image. A widget is
    modelled by the fields the loop assigns and by the number of times it
    was refreshed. *)

Module DesktopUI.

(** What [chartImage.Image] can hold: the placeholder, an RGBA image of
    the given size filled with white, or a decoded chart. *)
Inductive Picture (Image : Type) : Type :=
| White (width height : Z)
| Rendered (img : Image).
Arguments White {Image} width height.
Arguments Rendered {Image} img.

(** [renderPlaceholder]: an 800 by 600 image filled with white. *)
Definition renderPlaceholder {Image} : Picture Image := White 800 600.

Record Widgets (Image : Type) : Type := mkWidgets {
  loadingText_Hidden : bool;
  chartImage_Image : option (Picture Image);
  chartImage_refreshes : nat
}.
Arguments mkWidgets {Image} _ _ _.
Arguments loadingText_Hidden {Image} _.
Arguments chartImage_Image {Image} _.
Arguments chartImage_refreshes {Image} _.

Record App (Image : Type) : Type := mkApp {
  world : Desktop.World;
  widgets : Widgets Image
}.
Arguments mkApp {Image} _ _.
Arguments world {Image} _.
Arguments widgets {Image} _.

(** The widgets as [main] creates them: the text visible, no image. *)
Definition widgets0 {Image} : Widgets Image := mkWidgets false None 0.

Section Update.
Context {Image : Type}.
Variable graph_Render : Desktop.Chart → result string.
Variable image_Decode : string → result Image.

Definition lift_world {A} (m : M Desktop.World A) : M (App Image) A :=
  fun a => match m (world a) with
           | Done x w => Done x (mkApp w (widgets a))
           | Panic msg => Panic msg
           end.

Definition on_widgets (f : Widgets Image → Widgets Image) : M (App Image) unit :=
  fun a => Done tt (mkApp (world a) (f (widgets a))).

Definition loadingText_Show : M (App Image) unit :=
  on_widgets (λ u, mkWidgets false (chartImage_Image u) (chartImage_refreshes u)).

Definition loadingText_Hide : M (App Image) unit :=
  on_widgets (λ u, mkWidgets true (chartImage_Image u) (chartImage_refreshes u)).

Definition chartImage_set (p : Picture Image) : M (App Image) unit :=
  on_widgets (λ u, mkWidgets (loadingText_Hidden u) (Some p) (chartImage_refreshes u)).

Definition chartImage_Refresh : M (App Image) unit :=
  on_widgets (λ u, mkWidgets (loadingText_Hidden u) (chartImage_Image u)
                     (S (chartImage_refreshes u))).

(** One iteration of the update loop. [before] is what the other
    goroutines do between the unlock of the loop and the first lock of
    [renderChart], [between] what they do between the two critical
    sections of [renderChart]. *)
Definition update (before between : M Desktop.World unit) (oversleep : Elapse)
    : M (App Image) unit :=
  n ← lift_world Desktop.renderChart_len;
  (if decide (n < 2)%nat then
     loadingText_Show;;
     chartImage_set renderPlaceholder;;
     chartImage_Refresh
   else
     loadingText_Hide;;
     lift_world before;;
     img ← lift_world (Desktop.renderChart_interleaved graph_Render image_Decode between);
     match img with
     | Some img => chartImage_set (Rendered img);; chartImage_Refresh
     | None => mret tt
     end);;
  lift_world (Desktop.lift_env (time_Sleep (1 * Second) oversleep)).
End Update.

End DesktopUI.

(** ** Vocabulary of the further properties *)

(** The critical sections of [doPings] for the samples of [l], one after
    the other. *)
Fixpoint records (l : list Desktop.PingResult) : M Desktop.World unit :=
  match l with
  | [] => mret tt
  | r :: l => Desktop.with_results (Desktop.record r);; records l
  end.

(** The samples the rounds of [es] assemble from the state [s], and the
    environment they leave. *)
Fixpoint rounds_samples (es : list Desktop.RoundEnv) (s : Env) : list Desktop.PingResult :=
  match es with
  | [] => []
  | e :: es => round_sample e s :: rounds_samples es (round_env e s)
  end.

Definition rounds_env (es : list Desktop.RoundEnv) (s : Env) : Env :=
  foldl (λ s e, round_env e s) s es.

(** The response bodies closed in a trace, by URL, in order. *)
Definition closes (tr : list Event) : list string :=
  omap (λ ev, match ev with EvBodyClose url => Some url | _ => None end) tr.

(** The URL of an outcome that came with a response. *)
Definition answered (url : string) (o : GetOutcome) : list string :=
  match err o with
  | Some _ => []
  | None => [url]
  end.

(** The frames a handler of the two-target server writes for the ticks
    it receives, with the result of each write: a record that cannot be
    encoded is skipped, a failed write is the last. *)
Fixpoint frames (json_Marshal : WsDual.PingResult → result string)
    (ticks : list WsDual.TickEnv) : list (string * bool) :=
  match ticks with
  | [] => []
  | t :: ticks =>
      match json_Marshal (tick_result t) with
      | Err _ => frames json_Marshal ticks
      | Ok data =>
          match WsDual.write_err t with
          | Some _ => [(data, false)]
          | None => (data, true) :: frames json_Marshal ticks
          end
      end
  end.

(** The ticks a handler serves: all of them up to the first whose write
    fails, that one included. *)
Fixpoint served (json_Marshal : WsDual.PingResult → result string)
    (ticks : list WsDual.TickEnv) : list WsDual.TickEnv :=
  match ticks with
  | [] => []
  | t :: ticks =>
      match tick_flow json_Marshal t with
      | Return => [t]
      | Continue => t :: served json_Marshal ticks
      end
  end.

Definition returned (f : flow) : bool :=
  match f with
  | Return => true
  | Continue => false
  end.

(** Whether a handler has returned after the ticks it received. *)
Definition handler_flow (json_Marshal : WsDual.PingResult → result string)
    (ticks : list WsDual.TickEnv) : flow :=
  if existsb (λ t, returned (tick_flow json_Marshal t)) ticks
  then Return else Continue.

(** The same vocabulary for the single-target server. *)
Definition single_result (t : WsSingle.TickEnv) : WsSingle.PingResult :=
  WsSingle.mkPingResult (Time_UTC (WsSingle.tick t)) (probe_value (WsSingle.get t)).

Definition single_flow (json_Marshal : WsSingle.PingResult → result string)
    (t : WsSingle.TickEnv) : flow :=
  match json_Marshal (single_result t), WsSingle.write_err t with
  | Ok _, Some _ => Return
  | _, _ => Continue
  end.

Definition single_events (json_Marshal : WsSingle.PingResult → result string)
    (t : WsSingle.TickEnv) : list Event :=
  probe_events "Ping error:" WsSingle.targetURL (WsSingle.get t)
  ++ match json_Marshal (single_result t) with
     | Err e => [EvLog ("JSON Marshal error:" +:+ " " +:+ e)]
     | Ok data =>
         EvWrite data (bool_decide (WsSingle.write_err t = None))
         :: match WsSingle.write_err t with
            | Some e => [EvLog ("WebSocket Write error:" +:+ " " +:+ e)]
            | None => []
            end
     end.

Arguments single_events : simpl never.

Fixpoint single_frames (json_Marshal : WsSingle.PingResult → result string)
    (ticks : list WsSingle.TickEnv) : list (string * bool) :=
  match ticks with
  | [] => []
  | t :: ticks =>
      match json_Marshal (single_result t) with
      | Err _ => single_frames json_Marshal ticks
      | Ok data =>
          match WsSingle.write_err t with
          | Some _ => [(data, false)]
          | None => (data, true) :: single_frames json_Marshal ticks
          end
      end
  end.

Fixpoint single_served (json_Marshal : WsSingle.PingResult → result string)
    (ticks : list WsSingle.TickEnv) : list WsSingle.TickEnv :=
  match ticks with
  | [] => []
  | t :: ticks =>
      match single_flow json_Marshal t with
      | Return => [t]
      | Continue => t :: single_served json_Marshal ticks
      end
  end.

(** The world after [time.Sleep(1 * time.Second)]. *)
Definition slept (over : Elapse) (w : Desktop.World) : Desktop.World :=
  Desktop.mkWorld
    (env_pass (env_emit (Desktop.env w) (EvSleep (1 * Second)))
       (mkElapse (1 * Second + d_mono over) (1 * Second + d_wall over)))
    (Desktop.results w).

(** The deferred calls that show in a trace. *)
Definition teardowns (tr : list Event) : list Event :=
  omap (λ ev, match ev with
              | EvTickerStop => Some EvTickerStop
              | EvConnClose => Some EvConnClose
              | _ => None
              end) tr.

(** The clock after the ticks a handler served. *)
Definition served_clock (ticks : list WsDual.TickEnv) (c : Clock) : Clock :=
  foldl (λ c t, tick_clock t c) c ticks.

Definition single_clock (t : WsSingle.TickEnv) (c : Clock) : Clock :=
  mkClock (clk_wall c + d_wall (took (WsSingle.get t)))
          (clk_mono c + d_mono (took (WsSingle.get t))).

(** Whether a handler of the single-target server has returned. *)
Definition single_handler_flow (json_Marshal : WsSingle.PingResult → result string)
    (ticks : list WsSingle.TickEnv) : flow :=
  if existsb (λ t, returned (single_flow json_Marshal t)) ticks
  then Return else Continue.

(** The events of a handler that got its connection: those of the ticks
    it served, then its deferred calls if it returned. *)
Definition handler_events (json_Marshal : WsDual.PingResult → result string)
    (ticks : list WsDual.TickEnv) : list Event :=
  concat (tick_events json_Marshal <$> served json_Marshal ticks)
  ++ (if returned (handler_flow json_Marshal ticks)
      then [EvTickerStop; EvConnClose] else []).

Definition single_handler_events (json_Marshal : WsSingle.PingResult → result string)
    (ticks : list WsSingle.TickEnv) : list Event :=
  concat (single_events json_Marshal <$> single_served json_Marshal ticks)
  ++ (if returned (single_handler_flow json_Marshal ticks)
      then [EvTickerStop; EvConnClose] else []).

(** Sample ticks of the single-target server. *)
Definition single_marshal_stub (r : WsSingle.PingResult) : result string :=
  if decide (WsSingle.Latency r = -1) then Err "unsupported value" else Ok "{latency:ok}".

Definition single_tick_ok : WsSingle.TickEnv :=
  WsSingle.mkTick (mkTime 1700000000000000000 (Some 5000)) (get_ok 10000000) None.

Definition single_tick_down : WsSingle.TickEnv :=
  WsSingle.mkTick (mkTime 1700000001000000000 (Some 1000005000))
    (get_failed 2000000000) None.

Definition single_tick_write_fails : WsSingle.TickEnv :=
  WsSingle.mkTick (mkTime 1700000002000000000 (Some 2000005000))
    (get_ok 10000000) (Some "broken pipe").

(** The integer a finite binary64 number stands for when its value
    [(-1)^s * m * 2^e] is one; for [e < 0] the quotient of [m] by
    [2^(-e)]. *)
Definition float64_to_Z (f : spec_float) : Z :=
  match f with
  | S754_finite s m e =>
      cond_Zopp s (if 0 <=? e then Zpos m * 2 ^ e else Zpos m / 2 ^ (- e))
  | _ => 0
  end.

(** * Properties *)

(** ** The history store *)

Section Store.
Context {A : Type}.
Implicit Types l k : list A.

Lemma lastN_length n l : length (lastN n l) = (length l `min` n)%nat.
Proof. unfold lastN. rewrite length_drop. lia. Qed.

Lemma lastN_all n l : (length l ≤ n)%nat → lastN n l = l.
Proof. intros H. unfold lastN. by replace (length l - n)%nat with 0%nat by lia. Qed.

Lemma lastN_app_r n l k : (n ≤ length k)%nat → lastN n (l ++ k) = lastN n k.
Proof.
  intros H. unfold lastN. rewrite length_app.
  replace (length l + length k - n)%nat with (length l + (length k - n))%nat by lia.
  by rewrite drop_app_add.
Qed.

Lemma lastN_lastN_app n l k : lastN n (lastN n l ++ k) = lastN n (l ++ k).
Proof.
  unfold lastN at 2.
  rewrite <- (take_drop (length l - n) l) at 3.
  set (d := drop (length l - n) l).
  assert (Hd : (length d = length l `min` n)%nat) by (subst d; rewrite length_drop; lia).
  assert (Ht : (length (take (length l - n) l) = length l - n)%nat)
    by (rewrite length_take; lia).
  rewrite <- (assoc_L (++)).
  destruct (decide (length l ≤ n)%nat) as [Hle|Hgt].
  - replace (length l - n)%nat with 0%nat by lia. done.
  - symmetry. apply lastN_app_r. rewrite length_app. lia.
Qed.
End Store.

Lemma record_lastN r rs : Desktop.record r rs = lastN 60 (rs ++ [r]).
Proof.
  unfold Desktop.record, lastN. case_decide as H; [done|].
  by replace (length (rs ++ [r]) - 60)%nat with 0%nat by lia.
Qed.

Lemma record_length r rs : length (Desktop.record r rs) = (S (length rs) `min` 60)%nat.
Proof. rewrite record_lastN, lastN_length, length_app. simpl. lia. Qed.

Lemma appends_lastN l : ∀ rs, (length rs ≤ 60)%nat → appends l rs = lastN 60 (rs ++ l).
Proof.
  unfold appends. induction l as [|r l IH]; intros rs Hrs; simpl.
  - rewrite (right_id_L [] (++)). by rewrite lastN_all.
  - rewrite IH by (rewrite record_length; lia).
    rewrite record_lastN, lastN_lastN_app. by rewrite <- (assoc_L (++)).
Qed.

Lemma appends_length_le l rs : (length rs ≤ 60)%nat → (length (appends l rs) ≤ 60)%nat.
Proof. intros H. rewrite appends_lastN, lastN_length by done. lia. Qed.

(** Whatever a round of [doPings] that completes does to the store is
    one append. *)
Lemma round_results e w w' :
  Desktop.round e w = Done tt w' →
  ∃ r, Desktop.results w' = Desktop.record r (Desktop.results w).
Proof.
  unfold Desktop.round.
  unfold mbind at 1, M_bind at 1. unfold Desktop.lift_env at 1, time_Now at 1.
  unfold mbind at 1, M_bind at 1. unfold Desktop.lift_env at 1.
  destruct (probe _ _ (Desktop.getG e) _) as [g s1|]; [|done].
  unfold mbind at 1, M_bind at 1. unfold Desktop.lift_env at 1.
  cbn [Desktop.env Desktop.results].
  destruct (probe _ _ (Desktop.getA e) _) as [a s2|]; [|done].
  intros H. injection H as <-. by eexists.
Qed.

Lemma doPings_results es : ∀ w w',
  Desktop.doPings es w = Done tt w' →
  ∃ l, length l = length es ∧ Desktop.results w' = appends l (Desktop.results w).
Proof.
  induction es as [|e es IH]; intros w w' H.
  - injection H as <-. by exists [].
  - simpl in H. unfold mbind, M_bind in H.
    destruct (Desktop.round e w) as [[] w1|] eqn:Hr; [|done].
    destruct (round_results _ _ _ Hr) as [r Hr1].
    destruct (IH _ _ H) as (l & Hl & Hres).
    exists (r :: l). split; [simpl; by rewrite Hl|].
    rewrite Hres, Hr1. reflexivity.
Qed.

(** C1. The store never holds more than 60 samples after an append; an
    append to a full store evicts exactly the oldest sample; after more
    than 60 appends the store is the last 60 appended samples, in the
    order they were produced; and the store of [doPings] after any
    number of rounds is the result of one append per round. *)
Theorem C1_history_bounded_fifo (r : Desktop.PingResult) (rs l : list Desktop.PingResult)
    (es : list Desktop.RoundEnv) (w w' : Desktop.World) :
  (length (Desktop.record r rs) ≤ 60)%nat
  ∧ (length rs = 60%nat → Desktop.record r rs = drop 1 rs ++ [r])
  ∧ ((60 < length l)%nat →
       appends l rs = lastN 60 l ∧ length (appends l rs) = 60%nat)
  ∧ (Desktop.doPings es w = Done tt w' →
       ∃ produced, length produced = length es
         ∧ Desktop.results w' = appends produced (Desktop.results w)
         ∧ ((length (Desktop.results w) ≤ 60)%nat → (length (Desktop.results w') ≤ 60)%nat)
         ∧ ((60 < length es)%nat →
              Desktop.results w' = lastN 60 produced
              ∧ length (Desktop.results w') = 60%nat)).
Proof.
  assert (Hmany : ∀ l rs, (60 < length l)%nat →
            appends l rs = lastN 60 l ∧ length (appends l rs) = 60%nat).
  { clear. intros l rs H. destruct l as [|x l]; [simpl in H; lia|].
    assert (E : appends (x :: l) rs = lastN 60 (x :: l)).
    { change (appends (x :: l) rs) with (appends l (Desktop.record x rs)).
      rewrite appends_lastN by (rewrite record_length; lia).
      rewrite record_lastN, lastN_lastN_app, <- (assoc_L (++)).
      apply lastN_app_r. simpl in *. lia. }
    split; [done|]. rewrite E, lastN_length. lia. }
  split; [rewrite record_length; lia|]. split; [|split].
  - intros H. unfold Desktop.record. cbv zeta.
    rewrite length_app. simpl. rewrite H.
    case_decide; [|lia]. by rewrite drop_app_le by lia.
  - apply Hmany.
  - intros Hrun. destruct (doPings_results _ _ _ Hrun) as (produced & Hlen & Hres).
    exists produced. split; [done|]. split; [done|]. split.
    + intros Hw. rewrite Hres. by apply appends_length_le.
    + intros Hes. rewrite Hres. apply Hmany. lia.
Qed.

Lemma C1_history_bounded_fifo_witness :
  Desktop.record (sample_at 60) (samples_from 0 60) = samples_from 1 60
  ∧ appends (samples_from 60 61) (samples_from 0 60) = samples_from 61 60
  ∧ Desktop.doPings three_rounds (Desktop.mkWorld env0 []) = Done tt world_after_three_rounds
  ∧ ∃ produced, length produced = 3%nat
      ∧ Desktop.results world_after_three_rounds = appends produced [].
Proof.
  destruct (C1_history_bounded_fifo (sample_at 60) (samples_from 0 60) (samples_from 60 61)
              three_rounds (Desktop.mkWorld env0 []) world_after_three_rounds)
    as (_ & Hfull & Hmany & Hrun).
  split; [|split; [|split]].
  - rewrite Hfull by reflexivity. reflexivity.
  - destruct Hmany as [-> _]; [vm_compute; lia | reflexivity].
  - reflexivity.
  - destruct Hrun as (produced & Hlen & Hres & _); [reflexivity|].
    exists produced. split; [exact Hlen | exact Hres].
Defined.

(** ** The probe *)

Lemma Milliseconds_nonneg d : 0 ≤ d → 0 ≤ Milliseconds d.
Proof. intros H. unfold Milliseconds. apply Z.quot_pos; lia. Qed.

Lemma Milliseconds_sub_ms d : 0 ≤ d < 1000000 → Milliseconds d = 0.
Proof. intros H. unfold Milliseconds. apply Z.quot_small. lia. Qed.

Lemma probe_failed label url o e s :
  err o = Some e → probe label url o s = Done (-1) (probe_env label url o s).
Proof.
  intros He. unfold probe_env, probe_events. rewrite He.
  destruct o as [r er tk]; simpl in *; subst er. run_M.
  by rewrite <- (assoc_L (++)).
Qed.

Lemma probe_succeeded label url o r s :
  err o = None → resp o = Some r →
  probe label url o s = Done (Milliseconds (d_mono (took o))) (probe_env label url o s).
Proof.
  intros He Hr. unfold probe_env, probe_events. rewrite He.
  destruct o as [rr er tk]; simpl in *; subst er rr. run_M.
  rewrite <- (assoc_L (++)). unfold Time_Sub; simpl. do 2 f_equal. lia.
Qed.

Lemma probe_spec label url o s :
  GetOutcome_ok o → probe label url o s = Done (probe_value o) (probe_env label url o s).
Proof.
  intros [Hc _]. unfold probe_value. destruct (err o) as [e|] eqn:He.
  - by eapply probe_failed.
  - destruct (resp o) as [r|] eqn:Hr; [|by destruct Hc].
    by eapply probe_succeeded.
Qed.

(** The record of a tick of the single-target handler. *)
Lemma single_measure_spec t s :
  GetOutcome_ok (WsSingle.get t) →
  WsSingle.measure t s
  = Done (WsSingle.mkPingResult (Time_UTC (WsSingle.tick t)) (probe_value (WsSingle.get t)))
      (probe_env "Ping error:" WsSingle.targetURL (WsSingle.get t) s).
Proof.
  intros Hok. unfold WsSingle.measure.
  unfold mbind, M_bind. by rewrite probe_spec.
Qed.

(** C6. A probe whose request failed records the failure marker, the
    [int64] -1, and does not panic; a probe whose request succeeded
    records the elapsed time in whole milliseconds, which is never
    negative and is 0 below one millisecond. *)
Theorem C6_probe_latency_or_failed (label url : string) (o : GetOutcome) (s : Env) :
  (∀ e, err o = Some e → probe label url o s = Done (-1) (probe_env label url o s))
  ∧ (err o = None → GetOutcome_ok o →
       probe label url o s
         = Done (Milliseconds (d_mono (took o))) (probe_env label url o s)
       ∧ 0 ≤ Milliseconds (d_mono (took o))
       ∧ (d_mono (took o) < 1000000 → Milliseconds (d_mono (took o)) = 0)).
Proof.
  split.
  - intros e He. by eapply probe_failed.
  - intros He [Hc Ht]. split; [|split].
    + destruct (resp o) as [r|] eqn:Hr; [|by destruct Hc].
      by eapply probe_succeeded.
    + by apply Milliseconds_nonneg.
    + intros Hlt. apply Milliseconds_sub_ms. lia.
Qed.

Lemma C6_probe_latency_or_failed_witness :
  probe "Ping error:" WsSingle.targetURL (get_failed 30000000000) env0
    = Done (-1) (probe_env "Ping error:" WsSingle.targetURL (get_failed 30000000000) env0)
  ∧ probe "Ping error:" WsSingle.targetURL (get_ok 999999) env0
    = Done 0 (probe_env "Ping error:" WsSingle.targetURL (get_ok 999999) env0)
  ∧ probe "Ping error:" WsSingle.targetURL (get_ok 12345678) env0
    = Done 12 (probe_env "Ping error:" WsSingle.targetURL (get_ok 12345678) env0).
Proof.
  split; [|split].
  - apply (C6_probe_latency_or_failed "Ping error:" WsSingle.targetURL
             (get_failed 30000000000) env0) with (e := "dial tcp: i/o timeout").
    reflexivity.
  - destruct (C6_probe_latency_or_failed "Ping error:" WsSingle.targetURL
                (get_ok 999999) env0) as [_ H].
    destruct H as (H & _ & _); [reflexivity | split; [intros _; discriminate | simpl; lia] |].
    exact H.
  - destruct (C6_probe_latency_or_failed "Ping error:" WsSingle.targetURL
                (get_ok 12345678) env0) as [_ H].
    destruct H as (H & _ & _); [reflexivity | split; [intros _; discriminate | simpl; lia] |].
    exact H.
Defined.

(** ** A round of the sampler *)

Lemma requests_app t u : requests (t ++ u) = requests t ++ requests u.
Proof. apply omap_app. Qed.

Lemma requests_probe label url o : requests (probe_events label url o) = [url].
Proof. unfold probe_events. by destruct (err o). Qed.

Lemma lift_env_done {A} (m : M Env A) a e w :
  m (Desktop.env w) = Done a e →
  Desktop.lift_env m w = Done a (Desktop.mkWorld e (Desktop.results w)).
Proof. intros H. unfold Desktop.lift_env. by rewrite H. Qed.

Lemma round_spec e w :
  GetOutcome_ok (Desktop.getG e) → GetOutcome_ok (Desktop.getA e) →
  Desktop.round e w
  = Done tt (Desktop.mkWorld (round_env e (Desktop.env w))
               (Desktop.record (round_sample e (Desktop.env w)) (Desktop.results w))).
Proof.
  intros HG HA. unfold Desktop.round.
  unfold mbind at 1, M_bind at 1.
  rewrite (lift_env_done time_Now (now_of (Desktop.env w)) (Desktop.env w)) by done.
  unfold mbind at 1, M_bind at 1.
  erewrite lift_env_done by (by apply probe_spec). cbn [Desktop.env Desktop.results].
  unfold mbind at 1, M_bind at 1.
  erewrite lift_env_done by (by apply probe_spec). cbn [Desktop.env Desktop.results].
  reflexivity.
Qed.

Lemma record_split r rs :
  ∃ k, (k ≤ length rs)%nat ∧ Desktop.record r rs = drop k rs ++ [r].
Proof.
  rewrite record_lastN. unfold lastN. rewrite length_app. simpl.
  exists (length rs + 1 - 60)%nat. split; [lia|]. by rewrite drop_app_le by lia.
Qed.

Lemma record_last r rs : last (Desktop.record r rs) = Some r.
Proof. destruct (record_split r rs) as (k & _ & ->). apply last_snoc. Qed.

(** C2 (as stated, refuted). A round in which the request to gstatic
    fails stores the plain integer -1, a negative number, in the latency
    field of the sample. *)
Lemma C2_failure_recorded_as_minus_one :
  ∃ w, Desktop.round (Desktop.mkRound (get_failed 30000000000) (get_ok 42000000)
                        (mkElapse 0 0))
         (Desktop.mkWorld env0 []) = Done tt w
       ∧ Desktop.GstaticLatency <$> Desktop.results w = [-1]
       ∧ Desktop.ApenwarrLatency <$> Desktop.results w = [42]
       ∧ -1 < 0.
Proof. eexists. split; [reflexivity|]. vm_compute. repeat split. Qed.

(** C2 (amended). The failure marker is the [int64] -1 stored in the
    latency field: a probe records -1 exactly when its request failed and
    a value that is not negative otherwise, so the marker differs from
    every latency a successful probe can record. *)
Theorem C2_failure_marker_is_minus_one (label url : string) (o : GetOutcome) (s : Env) :
  GetOutcome_ok o →
  ∃ v s', probe label url o s = Done v s'
          ∧ (err o ≠ None → v = -1)
          ∧ (err o = None → 0 ≤ v)
          ∧ (v = -1 ↔ err o ≠ None).
Proof.
  intros Hok. exists (probe_value o), (probe_env label url o s).
  split; [by apply probe_spec|].
  destruct Hok as [_ Ht]. unfold probe_value.
  pose proof (Milliseconds_nonneg _ Ht) as Hms.
  destruct (err o) as [e|]; repeat split; try done; try lia.
Qed.

Lemma C2_failure_marker_is_minus_one_witness :
  GetOutcome_ok (get_failed 30000000000)
  ∧ ∃ v s', probe "gstatic ping error:" Desktop.gstaticURL (get_failed 30000000000) env0
              = Done v s'
            ∧ (err (get_failed 30000000000) ≠ None → v = -1)
            ∧ (err (get_failed 30000000000) = None → 0 ≤ v)
            ∧ (v = -1 ↔ err (get_failed 30000000000) ≠ None).
Proof.
  assert (H : GetOutcome_ok (get_failed 30000000000))
    by (split; [discriminate | simpl; lia]).
  split; [exact H|].
  exact (C2_failure_marker_is_minus_one "gstatic ping error:" Desktop.gstaticURL
           (get_failed 30000000000) env0 H).
Defined.

(** C7. Whatever the two requests of a round return, failed or not, the
    round issues both requests, in order, and records exactly one sample
    holding the timestamp of the round and the value of each probe, -1
    for a failed one; the same holds of a tick of the WebSocket handler. *)
Theorem C7_failed_probe_keeps_round (e : Desktop.RoundEnv) (w : Desktop.World)
    (t : WsDual.TickEnv) (s : Env) :
  GetOutcome_ok (Desktop.getG e) → GetOutcome_ok (Desktop.getA e) →
  GetOutcome_ok (WsDual.getG t) → GetOutcome_ok (WsDual.getA t) →
  (∃ w' k, Desktop.round e w = Done tt w'
      ∧ (k ≤ length (Desktop.results w))%nat
      ∧ Desktop.results w'
        = drop k (Desktop.results w)
          ++ [Desktop.mkPingResult (now_of (Desktop.env w))
                (probe_value (Desktop.getG e)) (probe_value (Desktop.getA e))]
      ∧ requests (trace (Desktop.env w'))
        = requests (trace (Desktop.env w)) ++ [Desktop.gstaticURL; Desktop.apenwarrURL])
  ∧ (∃ s', WsDual.measure t s
             = Done (WsDual.mkPingResult (Time_UTC (WsDual.tick t))
                       (probe_value (WsDual.getG t)) (probe_value (WsDual.getA t))) s'
      ∧ requests (trace s') = requests (trace s) ++ [WsDual.gstaticURL; WsDual.apenwarrURL])
  ∧ (err (Desktop.getG e) ≠ None → probe_value (Desktop.getG e) = -1)
  ∧ (err (Desktop.getA e) ≠ None → probe_value (Desktop.getA e) = -1)
  ∧ (err (WsDual.getG t) ≠ None → probe_value (WsDual.getG t) = -1)
  ∧ (err (WsDual.getA t) ≠ None → probe_value (WsDual.getA t) = -1).
Proof.
  intros HG HA HG' HA'. split; [|split].
  - destruct (record_split (round_sample e (Desktop.env w)) (Desktop.results w))
      as (k & Hk & Hrec).
    eexists _, k. split; [by apply round_spec|]. split; [done|]. split; [exact Hrec|].
    cbn. rewrite !requests_app, !requests_probe. simpl.
    by rewrite (right_id_L [] (++)), <- (assoc_L (++)).
  - eexists. unfold WsDual.measure.
    unfold mbind at 1, M_bind at 1. rewrite probe_spec by done.
    unfold mbind at 1, M_bind at 1. rewrite probe_spec by done.
    split; [reflexivity|].
    cbn. rewrite !requests_app, !requests_probe. by rewrite <- (assoc_L (++)).
  - unfold probe_value.
    repeat split; intros H; match goal with |- context [err ?o] => by destruct (err o) end.
Qed.

Lemma get_ok_ok ns : 0 ≤ ns → GetOutcome_ok (get_ok ns).
Proof. intros H. split; [intros _; discriminate | exact H]. Defined.

Lemma get_failed_ok ns : 0 ≤ ns → GetOutcome_ok (get_failed ns).
Proof. intros H. split; [discriminate | exact H]. Defined.

Lemma C7_failed_probe_keeps_round_witness :
  (∃ w', Desktop.round round_B_down (Desktop.mkWorld env0 (samples_from 0 2)) = Done tt w'
      ∧ Desktop.results w'
        = samples_from 0 2 ++ [Desktop.mkPingResult (now_of env0) 10 (-1)])
  ∧ (∃ s', WsDual.measure tick_G_down env0
           = Done (WsDual.mkPingResult (mkTime 1700000001000000000 None) (-1) 10) s').
Proof.
  destruct (C7_failed_probe_keeps_round round_B_down
              (Desktop.mkWorld env0 (samples_from 0 2)) tick_G_down env0)
    as ((w' & k & Hr & Hk & Hres & _) & (s' & Hm & _) & _).
  - apply get_ok_ok. lia.
  - apply get_failed_ok. lia.
  - apply get_failed_ok. lia.
  - apply get_ok_ok. lia.
  - split.
    + exists w'. split; [exact Hr|].
      clear Hres. vm_compute in Hr. injection Hr as <-. reflexivity.
    + exists s'. exact Hm.
Defined.

(** ** Timestamps *)

Lemma probe_env_mono label url o s :
  clk_mono (clock (probe_env label url o s)) = clk_mono (clock s) + d_mono (took o).
Proof. reflexivity. Qed.

Lemma round_env_mono e s :
  clk_mono (clock (round_env e s))
  = clk_mono (clock s) + d_mono (took (Desktop.getG e)) + d_mono (took (Desktop.getA e))
    + (1 * Second + d_mono (Desktop.oversleep e)).
Proof. reflexivity. Qed.

Lemma round_env_later e s :
  RoundEnv_ok e → clk_mono (clock s) < clk_mono (clock (round_env e s)).
Proof.
  intros ([_ HG] & [_ HA] & Hs). rewrite round_env_mono. unfold Second. lia.
Qed.

Lemma stamps_before_weaken c c' rs : c ≤ c' → stamps_before c rs → stamps_before c' rs.
Proof.
  intros Hc Hrs. unfold stamps_before in *. eapply Forall_impl; [exact Hrs|].
  intros a (m & Hm & Hlt). exists m. split; [done | lia].
Qed.

Lemma stamps_record s rs :
  stamps_increasing rs → stamps_before (clk_mono (clock s)) rs →
  ∀ ga aa,
    let r := Desktop.mkPingResult (now_of s) ga aa in
    stamps_increasing (Desktop.record r rs)
    ∧ stamps_before (clk_mono (clock s) + 1) (Desktop.record r rs).
Proof.
  intros Hinc Hbef ga aa r.
  destruct (record_split r rs) as (k & Hk & ->). split.
  - intros i j a b Hij Ha Hb.
    assert (Hlen : length (drop k rs) = (length rs - k)%nat) by apply length_drop.
    destruct (decide (j < length (drop k rs))%nat) as [Hj|Hj].
    + rewrite lookup_app_l in Ha by lia. rewrite lookup_app_l in Hb by lia.
      rewrite lookup_drop in Ha, Hb.
      apply (Hinc (k + i)%nat (k + j)%nat); [lia | done | done].
    + rewrite lookup_app_r in Hb by lia.
      destruct (j - length (drop k rs))%nat as [|n] eqn:Hn; [|by destruct n].
      simpl in Hb. injection Hb as <-.
      rewrite lookup_app_l in Ha by lia. rewrite lookup_drop in Ha.
      apply list_elem_of_lookup_2 in Ha.
      unfold stamps_before in Hbef. rewrite Forall_forall in Hbef.
      destruct (Hbef a Ha) as (m & Hm & Hlt).
      unfold Time_Before. rewrite Hm. simpl. by apply Z.ltb_lt.
  - unfold stamps_before. apply Forall_app. split.
    + apply Forall_drop. eapply stamps_before_weaken; [|exact Hbef]. lia.
    + apply Forall_singleton. exists (clk_mono (clock s)). split; [done | lia].
Qed.

Lemma round_keeps_stamps e w :
  RoundEnv_ok e →
  stamps_increasing (Desktop.results w) →
  stamps_before (clk_mono (clock (Desktop.env w))) (Desktop.results w) →
  ∃ w', Desktop.round e w = Done tt w'
        ∧ stamps_increasing (Desktop.results w')
        ∧ stamps_before (clk_mono (clock (Desktop.env w'))) (Desktop.results w').
Proof.
  intros Hok Hinc Hbef. pose proof Hok as (HG & HA & _).
  eexists. split; [by apply round_spec|]. cbn [Desktop.env Desktop.results].
  destruct (stamps_record (Desktop.env w) _ Hinc Hbef
              (probe_value (Desktop.getG e)) (probe_value (Desktop.getA e))) as [H1 H2].
  split; [exact H1|].
  eapply stamps_before_weaken; [|exact H2].
  pose proof (round_env_later e (Desktop.env w) Hok). lia.
Qed.

Lemma doPings_keeps_stamps es : ∀ w,
  Forall RoundEnv_ok es →
  stamps_increasing (Desktop.results w) →
  stamps_before (clk_mono (clock (Desktop.env w))) (Desktop.results w) →
  ∃ w', Desktop.doPings es w = Done tt w'
        ∧ stamps_increasing (Desktop.results w')
        ∧ stamps_before (clk_mono (clock (Desktop.env w'))) (Desktop.results w').
Proof.
  induction es as [|e es IH]; intros w Hes Hinc Hbef.
  - exists w. by repeat split.
  - apply Forall_cons in Hes as [He Hes].
    destruct (round_keeps_stamps e w He Hinc Hbef) as (w1 & Hr & Hinc1 & Hbef1).
    destruct (IH w1 Hes Hinc1 Hbef1) as (w' & Hd & H').
    exists w'. split; [|exact H'].
    simpl. unfold mbind, M_bind. by rewrite Hr.
Qed.

(** C8. The timestamps of two consecutive rounds are strictly increasing
    in the order of [Time.Before], from any state of the sampler; hence
    the store of a sampler started on the empty history always holds its
    samples with strictly increasing timestamps. *)
Theorem C8_timestamps_strictly_increasing
    (e1 e2 : Desktop.RoundEnv) (w : Desktop.World)
    (es : list Desktop.RoundEnv) (c : Clock) :
  RoundEnv_ok e1 → RoundEnv_ok e2 → Forall RoundEnv_ok es →
  (∃ w1 w2 a b,
      Desktop.round e1 w = Done tt w1 ∧ Desktop.round e2 w1 = Done tt w2
      ∧ last (Desktop.results w1) = Some a ∧ last (Desktop.results w2) = Some b
      ∧ Time_Before (Desktop.Timestamp a) (Desktop.Timestamp b) = true)
  ∧ (∃ w', Desktop.doPings es (Desktop.mkWorld (mkEnv c []) []) = Done tt w'
      ∧ ∀ i a b, Desktop.results w' !! i = Some a → Desktop.results w' !! S i = Some b →
          Time_Before (Desktop.Timestamp a) (Desktop.Timestamp b) = true).
Proof.
  intros H1 H2 Hes. split.
  - pose proof H1 as (HG1 & HA1 & _). pose proof H2 as (HG2 & HA2 & _).
    eexists _, _, _, _.
    split; [by apply round_spec|]. split; [by apply round_spec|].
    cbn [Desktop.env Desktop.results].
    split; [apply record_last|]. split; [apply record_last|].
    unfold round_sample, now_of, Time_Before. cbn [Desktop.Timestamp mono].
    apply Z.ltb_lt. by apply round_env_later.
  - destruct (doPings_keeps_stamps es (Desktop.mkWorld (mkEnv c []) []) Hes)
      as (w' & Hd & Hinc & _).
    + intros i j a b _ Ha. cbn in Ha. by rewrite lookup_nil in Ha.
    + apply Forall_nil_2.
    + exists w'. split; [exact Hd|].
      intros i a b Ha Hb. apply (Hinc i (S i)); [lia | done | done].
Qed.

(** ** The WebSocket handler *)

Lemma probe_closed_form label url o s :
  probe label url o s
  = if get_nil o then Panic "invalid memory address or nil pointer dereference"
    else Done (probe_value o) (probe_env label url o s).
Proof.
  unfold get_nil, probe_value.
  destruct (err o) as [e|] eqn:He.
  - by eapply probe_failed.
  - destruct (resp o) as [r|] eqn:Hr.
    + by eapply probe_succeeded.
    + destruct o as [rr er tk]; simpl in *; subst. reflexivity.
Qed.

Lemma GetOutcome_ok_not_nil o : GetOutcome_ok o → get_nil o = false.
Proof.
  intros [Hc _]. unfold get_nil.
  destruct (err o); [done|]. destruct (resp o); [done|]. by destruct Hc.
Qed.

Section Ws.
Variable json_Marshal : WsDual.PingResult → result string.

Lemma measure_closed_form t s :
  WsDual.measure t s
  = if get_nil (WsDual.getG t) || get_nil (WsDual.getA t)
    then Panic "invalid memory address or nil pointer dereference"
    else Done (tick_result t)
           (mkEnv (tick_clock t (clock s))
              (trace s
               ++ probe_events "Gstatic ping error:" WsDual.gstaticURL (WsDual.getG t)
               ++ probe_events "Apennwarr ping error:" WsDual.apenwarrURL (WsDual.getA t))).
Proof.
  unfold WsDual.measure.
  unfold mbind at 1, M_bind at 1. rewrite probe_closed_form.
  destruct (get_nil (WsDual.getG t)); [done|].
  unfold mbind at 1, M_bind at 1. rewrite probe_closed_form.
  destruct (get_nil (WsDual.getA t)); [done|].
  unfold mret, M_ret, probe_env, tick_result, tick_clock, env_pass.
  cbn [clock trace clk_wall clk_mono]. by rewrite <- (assoc_L (++)).
Qed.

Lemma iteration_closed_form t s :
  WsDual.iteration json_Marshal t s
  = if get_nil (WsDual.getG t) || get_nil (WsDual.getA t)
    then Panic "invalid memory address or nil pointer dereference"
    else Done (tick_flow json_Marshal t)
           (mkEnv (tick_clock t (clock s)) (trace s ++ tick_events json_Marshal t)).
Proof.
  unfold WsDual.iteration.
  unfold mbind at 1, M_bind at 1. rewrite measure_closed_form.
  destruct (get_nil (WsDual.getG t) || get_nil (WsDual.getA t)); [done|].
  unfold tick_flow, tick_events.
  destruct (json_Marshal (tick_result t)) as [data|e]; run_M.
  - destruct (WsDual.write_err t) as [e|]; cbn;
      by rewrite <- !(assoc_L (++)).
  - by rewrite <- !(assoc_L (++)).
Qed.

Lemma iteration_ok t s :
  TickEnv_ok t →
  WsDual.iteration json_Marshal t s
  = Done (tick_flow json_Marshal t)
      (mkEnv (tick_clock t (clock s)) (trace s ++ tick_events json_Marshal t)).
Proof.
  intros [HG HA]. rewrite iteration_closed_form.
  by rewrite !GetOutcome_ok_not_nil.
Qed.

(** While every iteration continues, the handler stays in its loop. *)
Lemma serve_continues pre : ∀ s,
  Forall TickEnv_ok pre →
  Forall (λ t, tick_flow json_Marshal t = Continue) pre →
  ∀ rest, WsDual.serve json_Marshal (pre ++ rest) s
          = WsDual.serve json_Marshal rest
              (mkEnv (foldl (λ c t, tick_clock t c) (clock s) pre)
                 (trace s ++ concat (tick_events json_Marshal <$> pre))).
Proof.
  induction pre as [|t pre IH]; intros s Hok Hc rest.
  - simpl. rewrite (right_id_L [] (++)). by destruct s.
  - apply Forall_cons in Hok as [Ht Hok]. apply Forall_cons in Hc as [Hf Hc].
    simpl. unfold mbind at 1, M_bind at 1.
    rewrite iteration_ok by done. rewrite Hf.
    rewrite IH by done. cbn. by rewrite <- (assoc_L (++)).
Qed.
End Ws.

Lemma round_B_down_ok : RoundEnv_ok round_B_down.
Proof. repeat split; try discriminate; simpl; lia. Defined.

Lemma round_ok_1_ok : RoundEnv_ok round_ok_1.
Proof. repeat split; try discriminate; simpl; lia. Defined.

Lemma C8_timestamps_strictly_increasing_witness :
  (∃ w1 w2 a b,
      Desktop.round round_B_down (Desktop.mkWorld env0 (samples_from (-3) 3)) = Done tt w1
      ∧ Desktop.round round_ok_1 w1 = Done tt w2
      ∧ last (Desktop.results w1) = Some a ∧ last (Desktop.results w2) = Some b
      ∧ Time_Before (Desktop.Timestamp a) (Desktop.Timestamp b) = true)
  ∧ (∃ w', Desktop.doPings [round_ok_1; round_B_down; round_ok_1]
             (Desktop.mkWorld (mkEnv clock0 []) []) = Done tt w'
      ∧ ∀ i a b, Desktop.results w' !! i = Some a → Desktop.results w' !! S i = Some b →
          Time_Before (Desktop.Timestamp a) (Desktop.Timestamp b) = true).
Proof.
  apply (C8_timestamps_strictly_increasing round_B_down round_ok_1
           (Desktop.mkWorld env0 (samples_from (-3) 3))
           [round_ok_1; round_B_down; round_ok_1] clock0).
  - exact round_B_down_ok.
  - exact round_ok_1_ok.
  - repeat constructor; try discriminate; simpl; lia.
Defined.

Lemma tick_ok_1_ok : TickEnv_ok tick_ok_1.
Proof. repeat split; try discriminate; simpl; lia. Defined.

Lemma tick_write_fails_ok : TickEnv_ok tick_write_fails.
Proof. repeat split; try discriminate; simpl; lia. Defined.

(** ** The chart *)

Lemma take_S_insert {A} (l : list A) : ∀ i v,
  (i < length l)%nat → take (S i) (<[i:=v]> l) = take i l ++ [v].
Proof.
  induction l as [|x l IH]; intros [|i] v H; simpl in *; try lia; [done|].
  f_equal. apply IH. lia.
Qed.

Lemma store_at_in_range {A} i (v : A) a :
  (i < length a)%nat → store_at i v a = Some (<[i:=v]> a).
Proof. intros H. unfold store_at. by rewrite decide_True. Qed.

Lemma store_at_out_of_range {A} i (v : A) a :
  (length a ≤ i)%nat → store_at i v a = None.
Proof. intros H. unfold store_at. rewrite decide_False; [done | lia]. Qed.

(** The writes of the loop: every sample in range lands at its index. *)
Lemma fill_in_range rs : ∀ i xs ys zs,
  (i + length rs ≤ length xs)%nat → length ys = length xs → length zs = length xs →
  Desktop.fill i rs (xs, ys, zs)
  = Some (take i xs ++ stamps rs ++ drop (i + length rs) xs,
          take i ys ++ valuesG rs ++ drop (i + length rs) ys,
          take i zs ++ valuesA rs ++ drop (i + length rs) zs).
Proof.
  induction rs as [|r rs IH]; intros i xs ys zs Hx Hy Hz.
  - simpl. rewrite !Nat.add_0_r, !take_drop. done.
  - simpl in Hx. cbn [Desktop.fill].
    rewrite !store_at_in_range by lia. cbn [mbind option_bind].
    rewrite IH by (rewrite ?length_insert; lia).
    rewrite !take_S_insert by lia.
    rewrite !drop_insert_lt by lia.
    unfold stamps, valuesG, valuesA. rewrite !fmap_cons.
    rewrite <- !(assoc_L (++)). simpl.
    by replace (i + S (length rs))%nat with (S i + length rs)%nat by lia.
Qed.

(** The loop panics as soon as the store is longer than the arrays. *)
Lemma fill_out_of_range rs : ∀ i xs ys zs,
  (i ≤ length xs)%nat → (length xs < i + length rs)%nat →
  length ys = length xs → length zs = length xs →
  Desktop.fill i rs (xs, ys, zs) = None.
Proof.
  induction rs as [|r rs IH]; intros i xs ys zs Hi Hx Hy Hz; simpl in Hx; [lia|].
  cbn [Desktop.fill].
  destruct (decide (i < length xs)%nat) as [Hlt|Hge].
  - rewrite !store_at_in_range by lia. cbn [mbind option_bind].
    apply IH; rewrite ?length_insert; lia.
  - by rewrite (store_at_out_of_range i _ xs) by lia.
Qed.

Lemma chart_data_snapshot rs :
  Desktop.chart_data (length rs) rs = Some (chart_of rs).
Proof.
  unfold Desktop.chart_data.
  rewrite fill_in_range by (rewrite ?length_replicate; lia).
  simpl. rewrite !drop_ge by (rewrite length_replicate; lia).
  by rewrite !(right_id_L [] (++)).
Qed.

Lemma chart_data_grown n rs :
  (n < length rs)%nat → Desktop.chart_data n rs = None.
Proof.
  intros H. unfold Desktop.chart_data.
  by rewrite fill_out_of_range by (rewrite ?length_replicate; lia).
Qed.

Lemma float64_minus_one_eq : float64 (-1) = float64_minus_one.
Proof. reflexivity. Qed.

Section Renderer.
Context {Image : Type}.
Variable graph_Render : Desktop.Chart → result string.
Variable image_Decode : string → result Image.

(** [renderChart], from the length it read to what it returns. *)
Lemma renderChart_rest_closed_form n w :
  Desktop.renderChart_rest graph_Render image_Decode n w
  = if decide (n < 2)%nat then Done None w
    else match Desktop.chart_data n (Desktop.results w) with
         | None => Panic "index out of range"
         | Some graph =>
             match graph_Render graph with
             | Err e => Done None (logged ("Error rendering chart:" +:+ " " +:+ e) w)
             | Ok buffer =>
                 match image_Decode buffer with
                 | Err e => Done None (logged ("Error decoding chart image:" +:+ " " +:+ e) w)
                 | Ok img => Done (Some img) w
                 end
             end
         end.
Proof.
  unfold Desktop.renderChart_rest. case_decide; [done|].
  unfold mbind at 1, M_bind at 1.
  destruct (Desktop.chart_data n (Desktop.results w)) as [graph|]; [|done].
  destruct (graph_Render graph) as [buffer|e]; [|done].
  by destruct (image_Decode buffer).
Qed.

Lemma renderChart_closed_form w :
  Desktop.renderChart graph_Render image_Decode w
  = Desktop.renderChart_rest graph_Render image_Decode (length (Desktop.results w)) w.
Proof. reflexivity. Qed.

(** An append between the two critical sections, below capacity, makes
    the loop write past the end of its arrays. *)
Lemma renderChart_interleaved_grown r w :
  (2 ≤ length (Desktop.results w) < 60)%nat →
  Desktop.renderChart_interleaved graph_Render image_Decode
    (Desktop.with_results (Desktop.record r)) w
  = Panic "index out of range".
Proof.
  intros H. unfold Desktop.renderChart_interleaved, Desktop.renderChart_len,
    Desktop.with_results.
  unfold mbind, M_bind. rewrite renderChart_rest_closed_form.
  rewrite decide_False by lia. cbn [Desktop.results].
  rewrite chart_data_grown; [done|]. rewrite record_length. lia.
Qed.
End Renderer.

(** C5. On a store of 0 or 1 samples [renderChart] returns nil. On a
    store of 2 or more samples it hands the chart library two series,
    each with exactly one point per sample, in order, and returns the
    image the library renders and decodes. *)
Theorem C5_render_threshold_and_point_count {Image : Type}
    (graph_Render : Desktop.Chart → result string)
    (image_Decode : string → result Image)
    (w : Desktop.World) (buffer : string) (img : Image) :
  ((length (Desktop.results w) < 2)%nat →
     Desktop.renderChart graph_Render image_Decode w = Done None w)
  ∧ ((2 ≤ length (Desktop.results w))%nat →
     graph_Render (chart_of (Desktop.results w)) = Ok buffer →
     image_Decode buffer = Ok img →
     Desktop.renderChart graph_Render image_Decode w = Done (Some img) w
     ∧ Desktop.chart_data (length (Desktop.results w)) (Desktop.results w)
       = Some (chart_of (Desktop.results w))
     ∧ length (Desktop.Series (chart_of (Desktop.results w))) = 2%nat
     ∧ Forall (λ srs, length (Desktop.XValues srs) = length (Desktop.results w)
                      ∧ length (Desktop.YValues srs) = length (Desktop.results w)
                      ∧ Desktop.XValues srs = Desktop.Timestamp <$> Desktop.results w)
         (Desktop.Series (chart_of (Desktop.results w)))).
Proof.
  rewrite renderChart_closed_form, renderChart_rest_closed_form. split.
  - intros H. by rewrite decide_True.
  - intros H HR HD. rewrite decide_False by lia.
    rewrite chart_data_snapshot, HR, HD.
    split; [done|]. split; [done|]. split; [done|].
    unfold chart_of, Desktop.graph_of, stamps, valuesG, valuesA. cbn [Desktop.Series].
    repeat apply Forall_cons_2; [| |apply Forall_nil_2];
      cbn [Desktop.XValues Desktop.YValues]; by rewrite !length_fmap.
Qed.

Lemma C5_render_threshold_and_point_count_witness :
  Desktop.renderChart (λ _, Ok "PNG") (λ buffer, Ok (String.length buffer))
    (Desktop.mkWorld env0 (samples_from 0 1))
  = Done None (Desktop.mkWorld env0 (samples_from 0 1))
  ∧ Desktop.renderChart (λ _, Ok "PNG") (λ buffer, Ok (String.length buffer))
      (Desktop.mkWorld env0 (samples_from 0 3))
    = Done (Some 3%nat) (Desktop.mkWorld env0 (samples_from 0 3))
  ∧ Forall (λ srs, length (Desktop.XValues srs) = 3%nat)
      (Desktop.Series (chart_of (samples_from 0 3))).
Proof.
  split; [|split].
  - apply (C5_render_threshold_and_point_count (λ _, Ok "PNG")
             (λ buffer, Ok (String.length buffer))
             (Desktop.mkWorld env0 (samples_from 0 1)) "PNG" 3%nat).
    vm_compute. lia.
  - apply (C5_render_threshold_and_point_count (λ _, Ok "PNG")
             (λ buffer, Ok (String.length buffer))
             (Desktop.mkWorld env0 (samples_from 0 3)) "PNG" 3%nat);
      [vm_compute; lia | reflexivity | reflexivity].
  - destruct (C5_render_threshold_and_point_count (λ _, Ok "PNG")
                (λ buffer, Ok (String.length buffer))
                (Desktop.mkWorld env0 (samples_from 0 3)) "PNG" 3%nat) as [_ H].
    destruct H as (_ & _ & _ & H); [vm_compute; lia | reflexivity | reflexivity |].
    eapply Forall_impl; [exact H|]. intros srs (Hx & _ & _). exact Hx.
Defined.

(** C4 (as stated, refuted). For a snapshot whose second sample has a
    failed gstatic probe, the gstatic series has a point at the second
    timestamp, and its value is -1.0. *)
Lemma C4_failed_slot_is_plotted :
  Desktop.chart_data 2 snapshot_G_down
  = Some (Desktop.mkChart
      [ Desktop.mkSeries "gstatic (https://www.gstatic.com/generate_204)"
          [mkTime 1700000000000000000 (Some 5000);
           mkTime 1700000001300000000 (Some 1300005000)]
          [float64 10; float64_minus_one];
        Desktop.mkSeries "apenwarr (https://apenwarr.ca)"
          [mkTime 1700000000000000000 (Some 5000);
           mkTime 1700000001300000000 (Some 1300005000)]
          [float64 250; float64 240] ]).
Proof. reflexivity. Qed.

(** C4 (amended). Every sample of the snapshot, failed or not, is a point
    of both series: the point of sample [i] is at index [i], at the
    timestamp of the sample, with the recorded latency converted to
    binary64; a failed slot is therefore plotted as -1.0, which is not
    the value 0. *)
Theorem C4_every_slot_is_plotted (rs : list Desktop.PingResult) (i : nat)
    (r : Desktop.PingResult) :
  rs !! i = Some r →
  Desktop.chart_data (length rs) rs
  = Some (Desktop.mkChart
      [ Desktop.mkSeries "gstatic (https://www.gstatic.com/generate_204)"
          (stamps rs) (valuesG rs);
        Desktop.mkSeries "apenwarr (https://apenwarr.ca)"
          (stamps rs) (valuesA rs) ])
  ∧ stamps rs !! i = Some (Desktop.Timestamp r)
  ∧ valuesG rs !! i = Some (float64 (Desktop.GstaticLatency r))
  ∧ valuesA rs !! i = Some (float64 (Desktop.ApenwarrLatency r))
  ∧ (Desktop.GstaticLatency r = -1 → valuesG rs !! i = Some float64_minus_one)
  ∧ (Desktop.ApenwarrLatency r = -1 → valuesA rs !! i = Some float64_minus_one)
  ∧ float64_minus_one ≠ float64_zero.
Proof.
  intros Hi. split; [by rewrite chart_data_snapshot|].
  unfold stamps, valuesG, valuesA. rewrite !list_lookup_fmap, Hi. simpl.
  repeat split; try done; by intros ->.
Qed.

Lemma C4_every_slot_is_plotted_witness :
  valuesG snapshot_G_down !! 1%nat = Some float64_minus_one
  ∧ stamps snapshot_G_down !! 1%nat = Some (mkTime 1700000001300000000 (Some 1300005000)).
Proof.
  destruct (C4_every_slot_is_plotted snapshot_G_down 1
              (Desktop.mkPingResult (mkTime 1700000001300000000 (Some 1300005000)) (-1) 240))
    as (_ & Hx & _ & _ & Hg & _); [reflexivity|].
  split; [apply Hg; reflexivity | exact Hx].
Defined.

(** C10 (the code at the failing input). With two samples in the store
    when [renderChart] reads its length, and a third recorded by
    [doPings] before [renderChart] takes the lock again, the loop writes
    index 2 of arrays of length 2: the run-time panics. *)
Theorem C10_renderChart_index_out_of_range {Image : Type}
    (graph_Render : Desktop.Chart → result string)
    (image_Decode : string → result Image) :
  Desktop.renderChart_interleaved graph_Render image_Decode
    (Desktop.with_results (Desktop.record (sample_at 2)))
    (Desktop.mkWorld env0 (samples_from 0 2))
  = Panic "index out of range".
Proof. reflexivity. Qed.

(** ** How long a probe lasts *)

(** C3 (as stated, refuted). No bound holds of the time a probe takes:
    a request to an unreachable address that fails after an hour keeps
    the probe for an hour, and for every bound there is an outcome of
    [http.Get] that keeps the probe longer. *)
Lemma C3_probe_has_no_time_bound :
  (∃ s', probe "gstatic ping error:" Desktop.gstaticURL (get_failed (3600 * Second)) env0
         = Done (-1) s'
      ∧ clk_mono (clock s') - clk_mono (clock env0) = 3600 * Second)
  ∧ ∀ T : Z, ∃ o v s',
      GetOutcome_ok o
      ∧ probe "gstatic ping error:" Desktop.gstaticURL o env0 = Done v s'
      ∧ T < clk_mono (clock s') - clk_mono (clock env0).
Proof.
  split.
  - eexists. split; [by eapply probe_failed | reflexivity].
  - intros T. exists (get_failed (Z.max 0 T + 1)), (-1). eexists.
    split; [apply get_failed_ok; lia|]. split; [by eapply probe_failed|].
    rewrite probe_env_mono. cbn. lia.
Qed.

(** C3 (amended). A probe sets no timeout of its own: it issues one
    request and returns when [http.Get] returns, so it lasts exactly as
    long as that call took, whatever the outcome. *)
Theorem C3_probe_lasts_as_long_as_the_request (label url : string)
    (o : GetOutcome) (s : Env) :
  GetOutcome_ok o →
  ∃ v s', probe label url o s = Done v s'
          ∧ clk_mono (clock s') - clk_mono (clock s) = d_mono (took o)
          ∧ requests (trace s') = requests (trace s) ++ [url].
Proof.
  intros Hok. exists (probe_value o), (probe_env label url o s).
  split; [by apply probe_spec|]. split.
  - rewrite probe_env_mono. lia.
  - unfold probe_env. cbn [trace]. by rewrite requests_app, requests_probe.
Qed.

Lemma C3_probe_lasts_as_long_as_the_request_witness :
  GetOutcome_ok (get_failed (3600 * Second))
  ∧ ∃ v s', probe "apenwarr ping error:" Desktop.apenwarrURL
              (get_failed (3600 * Second)) env0 = Done v s'
            ∧ clk_mono (clock s') - clk_mono (clock env0) = 3600 * Second
            ∧ requests (trace s') = [Desktop.apenwarrURL].
Proof.
  assert (H : GetOutcome_ok (get_failed (3600 * Second)))
    by (apply get_failed_ok; unfold Second; lia).
  split; [exact H|].
  exact (C3_probe_lasts_as_long_as_the_request "apenwarr ping error:"
           Desktop.apenwarrURL (get_failed (3600 * Second)) env0 H).
Defined.

(** * Further properties *)

(** ** The sampler loop *)

Lemma rounds_samples_length es : ∀ s, length (rounds_samples es s) = length es.
Proof. induction es as [|e es IH]; intros s; simpl; [done | by rewrite IH]. Qed.

(** [doPings] over rounds whose requests answer as [http.Get] does. *)
Lemma doPings_spec es : ∀ w,
  Forall RoundEnv_ok es →
  Desktop.doPings es w
  = Done tt (Desktop.mkWorld (rounds_env es (Desktop.env w))
               (appends (rounds_samples es (Desktop.env w)) (Desktop.results w))).
Proof.
  induction es as [|e es IH]; intros w Hes.
  - by destruct w.
  - apply Forall_cons in Hes as [(HG & HA & _) Hes].
    cbn [Desktop.doPings]. unfold mbind, M_bind.
    rewrite round_spec by done. by rewrite IH.
Qed.

(** X1. A history of at most 60 samples holds, after [k] more appends,
    the smaller of its length plus [k] and 60 samples; so does the
    history of [doPings] after [k] rounds, and it never gets shorter. *)
Theorem history_length_after_rounds (l rs : list Desktop.PingResult)
    (es : list Desktop.RoundEnv) (w : Desktop.World) :
  ((length rs ≤ 60)%nat → length (appends l rs) = ((length rs + length l) `min` 60)%nat)
  ∧ (Forall RoundEnv_ok es → (length (Desktop.results w) ≤ 60)%nat →
       ∃ w', Desktop.doPings es w = Done tt w'
         ∧ length (Desktop.results w')
           = ((length (Desktop.results w) + length es) `min` 60)%nat
         ∧ (length (Desktop.results w) ≤ length (Desktop.results w'))%nat).
Proof.
  assert (Hlen : ∀ l rs, (length rs ≤ 60)%nat →
            length (appends l rs) = ((length rs + length l) `min` 60)%nat).
  { clear. intros l rs H. by rewrite appends_lastN, lastN_length, length_app. }
  split; [apply Hlen|].
  intros Hes Hw. eexists. split; [by apply doPings_spec|].
  cbn [Desktop.results]. rewrite Hlen, rounds_samples_length by done. lia.
Qed.

Lemma three_rounds_ok : Forall RoundEnv_ok three_rounds.
Proof.
  repeat apply Forall_cons_2; try apply Forall_nil_2;
    first [exact round_ok_1_ok | exact round_B_down_ok].
Defined.

Lemma history_length_after_rounds_witness :
  length (appends (samples_from 59 5) (samples_from 0 59)) = 60%nat
  ∧ ∃ w', Desktop.doPings three_rounds (Desktop.mkWorld env0 (samples_from (-58) 58))
          = Done tt w'
      ∧ length (Desktop.results w') = 60%nat.
Proof.
  destruct (history_length_after_rounds (samples_from 59 5) (samples_from 0 59)
              three_rounds (Desktop.mkWorld env0 (samples_from (-58) 58))) as [Ha Hr].
  split.
  - rewrite Ha by (vm_compute; lia). reflexivity.
  - destruct Hr as (w' & Hrun & Hlen & _);
      [exact three_rounds_ok | vm_compute; lia |].
    exists w'. split; [exact Hrun|]. rewrite Hlen. reflexivity.
Defined.

(** X2. The timestamps of two consecutive rounds are apart by at least
    the time both requests of the first round took plus one second: the
    loop samples at most once a second, and less often when a target is
    slow. *)
Theorem sampling_period (e1 e2 : Desktop.RoundEnv) (w : Desktop.World) :
  RoundEnv_ok e1 → RoundEnv_ok e2 →
  ∃ w1 w2 a b,
    Desktop.round e1 w = Done tt w1 ∧ Desktop.round e2 w1 = Done tt w2
    ∧ last (Desktop.results w1) = Some a ∧ last (Desktop.results w2) = Some b
    ∧ d_mono (took (Desktop.getG e1)) + d_mono (took (Desktop.getA e1)) + 1 * Second
      ≤ Time_Sub (Desktop.Timestamp b) (Desktop.Timestamp a)
    ∧ 1 * Second ≤ Time_Sub (Desktop.Timestamp b) (Desktop.Timestamp a).
Proof.
  intros H1 H2. pose proof H1 as (HG1 & HA1 & Hs1). pose proof H2 as (HG2 & HA2 & _).
  eexists _, _, _, _.
  split; [by apply round_spec|]. split; [by apply round_spec|].
  cbn [Desktop.env Desktop.results].
  split; [apply record_last|]. split; [apply record_last|].
  unfold round_sample, now_of, Time_Sub. cbn [Desktop.Timestamp mono].
  rewrite round_env_mono. destruct HG1 as [_ HG1], HA1 as [_ HA1]. split; lia.
Qed.

Lemma sampling_period_witness :
  ∃ w1 w2 a b,
    Desktop.round round_B_down (Desktop.mkWorld env0 []) = Done tt w1
    ∧ Desktop.round round_ok_1 w1 = Done tt w2
    ∧ last (Desktop.results w1) = Some a ∧ last (Desktop.results w2) = Some b
    ∧ 3010000000 ≤ Time_Sub (Desktop.Timestamp b) (Desktop.Timestamp a).
Proof.
  destruct (sampling_period round_B_down round_ok_1 (Desktop.mkWorld env0 [])
              round_B_down_ok round_ok_1_ok)
    as (w1 & w2 & a & b & Hr1 & Hr2 & Ha & Hb & Hsub & _).
  exists w1, w2, a, b. repeat split; try assumption.
Defined.

(** X3. The latency a round records for a target depends on the outcome
    of the request to that target only: neither the state of the clock
    nor what the request to the other target returned, or how long it
    took, changes it. *)
Theorem latency_depends_on_own_request (e1 e2 : Desktop.RoundEnv) (w1 w2 : Desktop.World) :
  RoundEnv_ok e1 → RoundEnv_ok e2 →
  ∃ w1' w2' a b,
    Desktop.round e1 w1 = Done tt w1' ∧ Desktop.round e2 w2 = Done tt w2'
    ∧ last (Desktop.results w1') = Some a ∧ last (Desktop.results w2') = Some b
    ∧ (Desktop.getA e1 = Desktop.getA e2 →
         Desktop.ApenwarrLatency a = Desktop.ApenwarrLatency b)
    ∧ (Desktop.getG e1 = Desktop.getG e2 →
         Desktop.GstaticLatency a = Desktop.GstaticLatency b).
Proof.
  intros (HG1 & HA1 & _) (HG2 & HA2 & _).
  eexists _, _, _, _.
  split; [by apply round_spec|]. split; [by apply round_spec|].
  cbn [Desktop.results].
  split; [apply record_last|]. split; [apply record_last|].
  unfold round_sample. cbn [Desktop.ApenwarrLatency Desktop.GstaticLatency].
  split; by intros ->.
Qed.

Lemma latency_depends_on_own_request_witness :
  ∃ w1' w2' a b,
    Desktop.round round_B_down (Desktop.mkWorld env0 []) = Done tt w1'
    ∧ Desktop.round round_ok_1 world_after_three_rounds = Done tt w2'
    ∧ last (Desktop.results w1') = Some a ∧ last (Desktop.results w2') = Some b
    ∧ Desktop.GstaticLatency a = Desktop.GstaticLatency b.
Proof.
  destruct (latency_depends_on_own_request round_B_down round_ok_1
              (Desktop.mkWorld env0 []) world_after_three_rounds
              round_B_down_ok round_ok_1_ok)
    as (w1 & w2 & a & b & Hr1 & Hr2 & Ha & Hb & _ & HG).
  exists w1, w2, a, b. repeat split; try assumption.
  apply HG. reflexivity.
Defined.

Lemma closes_app t u : closes (t ++ u) = closes t ++ closes u.
Proof. apply omap_app. Qed.

Lemma closes_probe label url o : closes (probe_events label url o) = answered url o.
Proof. unfold probe_events, answered. by destruct (err o). Qed.

Lemma round_env_requests e s :
  requests (trace (round_env e s))
  = requests (trace s) ++ [Desktop.gstaticURL; Desktop.apenwarrURL].
Proof.
  cbn. rewrite !requests_app, !requests_probe. simpl.
  by rewrite (right_id_L [] (++)), <- (assoc_L (++)).
Qed.

Lemma round_env_closes e s :
  closes (trace (round_env e s))
  = closes (trace s) ++ answered Desktop.gstaticURL (Desktop.getG e)
    ++ answered Desktop.apenwarrURL (Desktop.getA e).
Proof.
  cbn. rewrite !closes_app, !closes_probe. simpl.
  by rewrite (right_id_L [] (++)), <- (assoc_L (++)).
Qed.

Lemma rounds_env_requests es : ∀ s,
  requests (trace (rounds_env es s))
  = requests (trace s)
    ++ concat (replicate (length es) [Desktop.gstaticURL; Desktop.apenwarrURL]).
Proof.
  unfold rounds_env. induction es as [|e es IH]; intros s.
  - simpl. by rewrite (right_id_L [] (++)).
  - cbn [foldl length replicate concat]. rewrite IH, round_env_requests.
    by rewrite <- (assoc_L (++)).
Qed.

Lemma rounds_env_closes es : ∀ s,
  closes (trace (rounds_env es s))
  = closes (trace s)
    ++ concat ((λ e, answered Desktop.gstaticURL (Desktop.getG e)
                     ++ answered Desktop.apenwarrURL (Desktop.getA e)) <$> es).
Proof.
  unfold rounds_env. induction es as [|e es IH]; intros s.
  - simpl. by rewrite (right_id_L [] (++)).
  - cbn [foldl fmap list_fmap concat]. rewrite IH, round_env_closes.
    by rewrite <- !(assoc_L (++)).
Qed.

(** X4. After [k] rounds [doPings] has issued exactly [2 k] requests:
    gstatic then apenwarr in every round, whatever the earlier requests
    returned; no request is repeated and none is left out. *)
Theorem rounds_request_both_targets (es : list Desktop.RoundEnv) (w : Desktop.World) :
  Forall RoundEnv_ok es →
  ∃ w', Desktop.doPings es w = Done tt w'
    ∧ requests (trace (Desktop.env w'))
      = requests (trace (Desktop.env w))
        ++ concat (replicate (length es) [Desktop.gstaticURL; Desktop.apenwarrURL]).
Proof.
  intros Hes. eexists. split; [by apply doPings_spec|].
  cbn [Desktop.env]. apply rounds_env_requests.
Qed.

Lemma rounds_request_both_targets_witness :
  ∃ w', Desktop.doPings three_rounds (Desktop.mkWorld env0 []) = Done tt w'
    ∧ requests (trace (Desktop.env w'))
      = [Desktop.gstaticURL; Desktop.apenwarrURL; Desktop.gstaticURL;
         Desktop.apenwarrURL; Desktop.gstaticURL; Desktop.apenwarrURL].
Proof.
  exact (rounds_request_both_targets three_rounds (Desktop.mkWorld env0 [])
           three_rounds_ok).
Defined.

(** X5. [doPings] closes the body of every response it obtains, once and
    in the order of the requests, and closes nothing for a request that
    failed. *)
Theorem responses_are_closed (es : list Desktop.RoundEnv) (w : Desktop.World) :
  Forall RoundEnv_ok es →
  ∃ w', Desktop.doPings es w = Done tt w'
    ∧ closes (trace (Desktop.env w'))
      = closes (trace (Desktop.env w))
        ++ concat ((λ e, answered Desktop.gstaticURL (Desktop.getG e)
                         ++ answered Desktop.apenwarrURL (Desktop.getA e)) <$> es).
Proof.
  intros Hes. eexists. split; [by apply doPings_spec|].
  cbn [Desktop.env]. apply rounds_env_closes.
Qed.

Lemma responses_are_closed_witness :
  ∃ w', Desktop.doPings three_rounds (Desktop.mkWorld env0 []) = Done tt w'
    ∧ closes (trace (Desktop.env w'))
      = [Desktop.gstaticURL; Desktop.apenwarrURL; Desktop.gstaticURL;
         Desktop.gstaticURL; Desktop.apenwarrURL].
Proof.
  exact (responses_are_closed three_rounds (Desktop.mkWorld env0 []) three_rounds_ok).
Defined.

(** X6. The latency a successful probe records is the elapsed time
    rounded down to the millisecond: it underestimates the elapsed time
    by less than one millisecond and never overestimates it. *)
Theorem probe_rounds_down (label url : string) (o : GetOutcome) (s : Env) :
  GetOutcome_ok o → err o = None →
  ∃ v s', probe label url o s = Done v s'
    ∧ v * 1000000 ≤ d_mono (took o) < (v + 1) * 1000000.
Proof.
  intros Hok He. exists (probe_value o), (probe_env label url o s).
  split; [by apply probe_spec|].
  destruct Hok as [_ Ht]. unfold probe_value, Milliseconds. rewrite He.
  rewrite Z.quot_div_nonneg by lia.
  pose proof (Z.div_mod (d_mono (took o)) 1000000 ltac:(lia)).
  pose proof (Z.mod_pos_bound (d_mono (took o)) 1000000 ltac:(lia)). lia.
Qed.

Lemma probe_rounds_down_witness :
  ∃ v s', probe "Ping error:" WsSingle.targetURL (get_ok 12999999) env0 = Done v s'
    ∧ v * 1000000 ≤ 12999999 < (v + 1) * 1000000.
Proof.
  apply (probe_rounds_down "Ping error:" WsSingle.targetURL (get_ok 12999999) env0).
  - apply get_ok_ok. lia.
  - reflexivity.
Defined.

(** ** [renderChart] and the history *)

Lemma records_spec l : ∀ w,
  records l w = Done tt (Desktop.mkWorld (Desktop.env w) (appends l (Desktop.results w))).
Proof.
  induction l as [|r l IH]; intros w; [by destruct w|].
  cbn [records]. unfold mbind, M_bind, Desktop.with_results. by rewrite IH.
Qed.

Lemma chart_of_lengths rs :
  Forall (λ srs, length (Desktop.XValues srs) = length rs
                 ∧ length (Desktop.YValues srs) = length rs)
    (Desktop.Series (chart_of rs)).
Proof.
  unfold chart_of, Desktop.graph_of, stamps, valuesG, valuesA. cbn [Desktop.Series].
  repeat apply Forall_cons_2; [| |apply Forall_nil_2];
    cbn [Desktop.XValues Desktop.YValues]; by rewrite !length_fmap.
Qed.

(** X7. Whatever length it read before, and whether it returns an image
    or nil, [renderChart] leaves the history exactly as it found it when
    it took the lock the second time, and does not let time pass. *)
Theorem renderChart_keeps_history {Image : Type}
    (graph_Render : Desktop.Chart → result string)
    (image_Decode : string → result Image)
    (n : nat) (w w' : Desktop.World) (r : option Image) :
  Desktop.renderChart_rest graph_Render image_Decode n w = Done r w' →
  Desktop.results w' = Desktop.results w
  ∧ clock (Desktop.env w') = clock (Desktop.env w).
Proof.
  rewrite renderChart_rest_closed_form. case_decide as Hn.
  - intros H. by injection H as _ <-.
  - destruct (Desktop.chart_data n (Desktop.results w)) as [graph|]; [|done].
    destruct (graph_Render graph) as [buffer|e].
    + destruct (image_Decode buffer); intros H; by injection H as _ <-.
    + intros H. by injection H as _ <-.
Qed.

Lemma renderChart_keeps_history_witness :
  Desktop.results (logged "Error rendering chart: zero x-range delta"
                     (Desktop.mkWorld env0 (samples_from 0 3)))
  = samples_from 0 3.
Proof.
  apply (renderChart_keeps_history (Image:=nat) (λ _, Err "zero x-range delta")
           (λ _, Ok 0%nat) 3 (Desktop.mkWorld env0 (samples_from 0 3))
           (logged "Error rendering chart: zero x-range delta"
              (Desktop.mkWorld env0 (samples_from 0 3))) None).
  reflexivity.
Defined.

(** X8. Appends between the two critical sections of [renderChart],
    which read a length of 2 to 60: if the history was below 60 and at
    least one sample was appended, the run-time panics; if the history
    was full, or nothing was appended, [renderChart] behaves as if run in
    one piece on the history as it is after the appends. *)
Theorem renderChart_between_appends {Image : Type}
    (graph_Render : Desktop.Chart → result string)
    (image_Decode : string → result Image)
    (l : list Desktop.PingResult) (w : Desktop.World) :
  (2 ≤ length (Desktop.results w) ≤ 60)%nat →
  (l ≠ [] → (length (Desktop.results w) < 60)%nat →
     Desktop.renderChart_interleaved graph_Render image_Decode (records l) w
     = Panic "index out of range")
  ∧ (l = [] ∨ length (Desktop.results w) = 60%nat →
     Desktop.renderChart_interleaved graph_Render image_Decode (records l) w
     = Desktop.renderChart graph_Render image_Decode
         (Desktop.mkWorld (Desktop.env w) (appends l (Desktop.results w)))).
Proof.
  intros Hn.
  assert (Hlen : length (appends l (Desktop.results w))
                 = ((length (Desktop.results w) + length l) `min` 60)%nat)
    by (rewrite appends_lastN, lastN_length, length_app by lia; done).
  unfold Desktop.renderChart_interleaved, Desktop.renderChart_len.
  unfold mbind, M_bind. rewrite records_spec. split.
  - intros Hl Hlt. rewrite renderChart_rest_closed_form, decide_False by lia.
    cbn [Desktop.results]. rewrite chart_data_grown; [done|].
    destruct l; [done|]. rewrite Hlen. simpl. lia.
  - intros Hsame. rewrite renderChart_closed_form. cbn [Desktop.results].
    f_equal. rewrite Hlen. destruct Hsame as [->|H60]; simpl; lia.
Qed.

Lemma renderChart_between_appends_witness :
  Desktop.renderChart_interleaved (Image:=nat) (λ _, Ok "PNG")
    (λ buffer, Ok (String.length buffer)) (records [sample_at 60; sample_at 61])
    (Desktop.mkWorld env0 (samples_from 0 60))
  = Desktop.renderChart (λ _, Ok "PNG") (λ buffer, Ok (String.length buffer))
      (Desktop.mkWorld env0 (samples_from 2 60))
  ∧ Desktop.renderChart_interleaved (Image:=nat) (λ _, Ok "PNG")
      (λ buffer, Ok (String.length buffer)) (records [sample_at 59])
      (Desktop.mkWorld env0 (samples_from 0 59))
    = Panic "index out of range".
Proof.
  split.
  - destruct (renderChart_between_appends (Image:=nat) (λ _, Ok "PNG")
                (λ buffer, Ok (String.length buffer)) [sample_at 60; sample_at 61]
                (Desktop.mkWorld env0 (samples_from 0 60))) as [_ H];
      [vm_compute; lia|].
    rewrite H by (right; reflexivity). reflexivity.
  - destruct (renderChart_between_appends (Image:=nat) (λ _, Ok "PNG")
                (λ buffer, Ok (String.length buffer)) [sample_at 59]
                (Desktop.mkWorld env0 (samples_from 0 59))) as [H _];
      [vm_compute; lia|].
    apply H; [discriminate | vm_compute; lia].
Defined.

(** X9. Run in one piece, [renderChart] never panics, whatever the
    history and the drawing library do; it returns nil exactly when the
    history has fewer than 2 samples, or rendering fails, or decoding
    the rendered bytes fails. *)
Theorem renderChart_nil_cases {Image : Type}
    (graph_Render : Desktop.Chart → result string)
    (image_Decode : string → result Image) (w : Desktop.World) :
  ∃ r w', Desktop.renderChart graph_Render image_Decode w = Done r w'
    ∧ (r = None ↔
         (length (Desktop.results w) < 2)%nat
         ∨ (∃ e, graph_Render (chart_of (Desktop.results w)) = Err e)
         ∨ (∃ buffer e, graph_Render (chart_of (Desktop.results w)) = Ok buffer
                        ∧ image_Decode buffer = Err e)).
Proof.
  rewrite renderChart_closed_form, renderChart_rest_closed_form.
  case_decide as Hn.
  - eexists _, _. split; [done|]. split; [by left | done].
  - rewrite chart_data_snapshot.
    destruct (graph_Render (chart_of (Desktop.results w))) as [buffer|e] eqn:HR.
    + destruct (image_Decode buffer) as [img|e] eqn:HD.
      * eexists _, _. split; [done|]. split; [done|].
        intros [H|[[e H]|(b & e & Hb & HE)]]; [lia | done |].
        injection Hb as <-. congruence.
      * eexists _, _. split; [done|]. split; [|done].
        intros _. right. right. by exists buffer, e.
    + eexists _, _. split; [done|]. split; [|done].
      intros _. right. left. by exists e.
Qed.

(** X10. After the rounds of [doPings], the chart of the history has two
    series with one point per retained sample, that is the smaller of
    the number of samples so far and 60; with two or more samples
    [renderChart] returns the image the drawing library gives for it. *)
Theorem chart_after_rounds {Image : Type}
    (graph_Render : Desktop.Chart → result string)
    (image_Decode : string → result Image)
    (es : list Desktop.RoundEnv) (w : Desktop.World) (buffer : string) (img : Image) :
  Forall RoundEnv_ok es → (length (Desktop.results w) ≤ 60)%nat →
  ∃ w', Desktop.doPings es w = Done tt w'
    ∧ Forall (λ srs,
        length (Desktop.XValues srs)
          = ((length (Desktop.results w) + length es) `min` 60)%nat
        ∧ length (Desktop.YValues srs)
          = ((length (Desktop.results w) + length es) `min` 60)%nat)
      (Desktop.Series (chart_of (Desktop.results w')))
    ∧ ((2 ≤ length (Desktop.results w) + length es)%nat →
       graph_Render (chart_of (Desktop.results w')) = Ok buffer →
       image_Decode buffer = Ok img →
       Desktop.renderChart graph_Render image_Decode w' = Done (Some img) w').
Proof.
  intros Hes Hw. eexists. split; [by apply doPings_spec|].
  set (rs' := appends _ _).
  assert (Hlen : length rs' = ((length (Desktop.results w) + length es) `min` 60)%nat).
  { subst rs'. rewrite appends_lastN, lastN_length, length_app by done.
    by rewrite rounds_samples_length. }
  cbn [Desktop.results]. split.
  - rewrite <- Hlen. apply chart_of_lengths.
  - intros H2 HR HD.
    rewrite renderChart_closed_form, renderChart_rest_closed_form.
    cbn [Desktop.results]. rewrite decide_False by lia.
    by rewrite chart_data_snapshot, HR, HD.
Qed.

Lemma chart_after_rounds_witness :
  ∃ w', Desktop.doPings three_rounds (Desktop.mkWorld env0 []) = Done tt w'
    ∧ Forall (λ srs, length (Desktop.XValues srs) = 3%nat
                     ∧ length (Desktop.YValues srs) = 3%nat)
        (Desktop.Series (chart_of (Desktop.results w')))
    ∧ Desktop.renderChart (λ _, Ok "PNG") (λ buffer, Ok (String.length buffer)) w'
      = Done (Some 3%nat) w'.
Proof.
  destruct (chart_after_rounds (Image:=nat) (λ _, Ok "PNG")
              (λ buffer, Ok (String.length buffer)) three_rounds
              (Desktop.mkWorld env0 []) "PNG" 3%nat three_rounds_ok)
    as (w' & Hrun & Hser & Himg); [vm_compute; lia|].
  exists w'. split; [exact Hrun|]. split; [exact Hser|].
  apply Himg; [vm_compute; lia | reflexivity | reflexivity].
Defined.

(** ** The update loop *)

Section UpdateFacts.
Context {Image : Type}.
Variable graph_Render : Desktop.Chart → result string.
Variable image_Decode : string → result Image.

(** The update loop, iteration by iteration, when the history holds
    fewer than two samples. *)
Lemma update_placeholder before between over a :
  (length (Desktop.results (DesktopUI.world a)) < 2)%nat →
  DesktopUI.update graph_Render image_Decode before between over a
  = Done tt (DesktopUI.mkApp (slept over (DesktopUI.world a))
               (DesktopUI.mkWidgets false (Some DesktopUI.renderPlaceholder)
                  (S (DesktopUI.chartImage_refreshes (DesktopUI.widgets a))))).
Proof.
  intros Hn. unfold DesktopUI.update.
  unfold mbind at 1, M_bind at 1.
  unfold mbind at 1, M_bind at 1.
  unfold DesktopUI.lift_world at 1, Desktop.renderChart_len.
  rewrite decide_True by done.
  reflexivity.
Qed.

(** The same when the history holds two samples or more. *)
Lemma update_chart before between over a w1 :
  (2 ≤ length (Desktop.results (DesktopUI.world a)))%nat →
  before (DesktopUI.world a) = Done tt w1 →
  DesktopUI.update graph_Render image_Decode before between over a
  = match Desktop.renderChart_interleaved graph_Render image_Decode between w1 with
    | Done (Some img) w2 =>
        Done tt (DesktopUI.mkApp (slept over w2)
                   (DesktopUI.mkWidgets true (Some (DesktopUI.Rendered img))
                      (S (DesktopUI.chartImage_refreshes (DesktopUI.widgets a)))))
    | Done None w2 =>
        Done tt (DesktopUI.mkApp (slept over w2)
                   (DesktopUI.mkWidgets true (DesktopUI.chartImage_Image (DesktopUI.widgets a))
                      (DesktopUI.chartImage_refreshes (DesktopUI.widgets a))))
    | Panic msg => Panic msg
    end.
Proof.
  intros Hn Hb. unfold DesktopUI.update.
  unfold mbind at 1, M_bind at 1.
  unfold mbind at 1, M_bind at 1.
  unfold DesktopUI.lift_world at 1, Desktop.renderChart_len.
  rewrite decide_False by lia.
  unfold mbind at 1, M_bind at 1.
  unfold DesktopUI.loadingText_Hide at 1, DesktopUI.on_widgets at 1.
  unfold mbind at 1, M_bind at 1.
  unfold DesktopUI.lift_world at 1. cbn [DesktopUI.world DesktopUI.widgets].
  rewrite Hb.
  unfold mbind at 1, M_bind at 1.
  unfold DesktopUI.lift_world at 1. cbn [DesktopUI.world DesktopUI.widgets].
  destruct (Desktop.renderChart_interleaved graph_Render image_Decode between w1)
    as [[img|] w2|msg]; reflexivity.
Qed.
End UpdateFacts.

Lemma appends_length l rs :
  (length rs ≤ 60)%nat → length (appends l rs) = ((length rs + length l) `min` 60)%nat.
Proof. intros H. by rewrite appends_lastN, lastN_length, length_app. Qed.

Section InterleavedFacts.
Context {Image : Type}.
Variable graph_Render : Desktop.Chart → result string.
Variable image_Decode : string → result Image.

Lemma renderChart_interleaved_records l w :
  Desktop.renderChart_interleaved graph_Render image_Decode (records l) w
  = Desktop.renderChart_rest graph_Render image_Decode (length (Desktop.results w))
      (Desktop.mkWorld (Desktop.env w) (appends l (Desktop.results w))).
Proof.
  unfold Desktop.renderChart_interleaved, Desktop.renderChart_len.
  unfold mbind, M_bind. by rewrite records_spec.
Qed.

Lemma renderChart_interleaved_idle w :
  Desktop.renderChart_interleaved graph_Render image_Decode (mret tt) w
  = Desktop.renderChart graph_Render image_Decode w.
Proof. reflexivity. Qed.
End InterleavedFacts.

(** X11. An iteration of the update loop with nothing running in
    between never panics and leaves the history alone. With fewer than
    two samples it shows the text and the white placeholder and
    refreshes the image; with two or more it hides the text and, when
    the chart library returns an image, shows that image and refreshes;
    when rendering or decoding fails it hides the text all the same and
    leaves the image it had, without a refresh. *)
Theorem update_shows_placeholder_or_chart {Image : Type}
    (graph_Render : Desktop.Chart → result string)
    (image_Decode : string → result Image)
    (over : Elapse) (a : DesktopUI.App Image) :
  ∃ a', DesktopUI.update graph_Render image_Decode (mret tt) (mret tt) over a = Done tt a'
    ∧ Desktop.results (DesktopUI.world a') = Desktop.results (DesktopUI.world a)
    ∧ ((length (Desktop.results (DesktopUI.world a)) < 2)%nat →
         DesktopUI.widgets a'
         = DesktopUI.mkWidgets false (Some DesktopUI.renderPlaceholder)
             (S (DesktopUI.chartImage_refreshes (DesktopUI.widgets a))))
    ∧ ((2 ≤ length (Desktop.results (DesktopUI.world a)))%nat →
         (∀ buffer img,
            graph_Render (chart_of (Desktop.results (DesktopUI.world a))) = Ok buffer →
            image_Decode buffer = Ok img →
            DesktopUI.widgets a'
            = DesktopUI.mkWidgets true (Some (DesktopUI.Rendered img))
                (S (DesktopUI.chartImage_refreshes (DesktopUI.widgets a))))
         ∧ ((∃ e, graph_Render (chart_of (Desktop.results (DesktopUI.world a))) = Err e)
            ∨ (∃ buffer e,
                 graph_Render (chart_of (Desktop.results (DesktopUI.world a))) = Ok buffer
                 ∧ image_Decode buffer = Err e) →
            DesktopUI.widgets a'
            = DesktopUI.mkWidgets true (DesktopUI.chartImage_Image (DesktopUI.widgets a))
                (DesktopUI.chartImage_refreshes (DesktopUI.widgets a)))).
Proof.
  destruct (decide (length (Desktop.results (DesktopUI.world a)) < 2)%nat) as [Hn|Hn].
  - rewrite update_placeholder by done. eexists. split; [done|].
    cbn [DesktopUI.world DesktopUI.widgets]. split; [done|]. split; [done | lia].
  - rewrite (update_chart _ _ _ _ _ _ (DesktopUI.world a)) by (done || lia).
    rewrite renderChart_interleaved_idle, renderChart_closed_form,
      renderChart_rest_closed_form, decide_False, chart_data_snapshot by done.
    destruct (graph_Render (chart_of (Desktop.results (DesktopUI.world a))))
      as [buffer|e] eqn:HR.
    + destruct (image_Decode buffer) as [img|e] eqn:HD.
      * eexists. split; [done|]. cbn [DesktopUI.world DesktopUI.widgets].
        split; [done|]. split; [lia|]. intros _. split.
        -- intros b i Hb Hi. injection Hb as <-. rewrite HD in Hi. by injection Hi as <-.
        -- intros [[e He]|(b & e & Hb & He)]; [done|].
           injection Hb as <-. congruence.
      * eexists. split; [done|]. cbn [DesktopUI.world DesktopUI.widgets].
        split; [done|]. split; [lia|]. intros _. split; [|done].
        intros b i Hb Hi. injection Hb as <-. congruence.
    + eexists. split; [done|]. cbn [DesktopUI.world DesktopUI.widgets].
      split; [done|]. split; [lia|]. intros _. split; [|done].
      intros b i Hb. done.
Qed.

Lemma update_shows_placeholder_or_chart_witness :
  (∃ a', DesktopUI.update (Image:=nat) (λ _, Ok "PNG") (λ buffer, Ok (String.length buffer))
           (mret tt) (mret tt) (mkElapse 0 0)
           (DesktopUI.mkApp (Desktop.mkWorld env0 (samples_from 0 1)) DesktopUI.widgets0)
         = Done tt a'
      ∧ DesktopUI.widgets a' = DesktopUI.mkWidgets false (Some (DesktopUI.White 800 600)) 1)
  ∧ (∃ a', DesktopUI.update (Image:=nat) (λ _, Ok "PNG") (λ buffer, Ok (String.length buffer))
             (mret tt) (mret tt) (mkElapse 0 0)
             (DesktopUI.mkApp (Desktop.mkWorld env0 (samples_from 0 2)) DesktopUI.widgets0)
           = Done tt a'
      ∧ DesktopUI.widgets a' = DesktopUI.mkWidgets true (Some (DesktopUI.Rendered 3%nat)) 1)
  ∧ (∃ a', DesktopUI.update (Image:=nat) (λ _, Err "zero x-range delta") (λ _, Ok 0%nat)
             (mret tt) (mret tt) (mkElapse 0 0)
             (DesktopUI.mkApp (Desktop.mkWorld env0 (samples_from 0 2)) DesktopUI.widgets0)
           = Done tt a'
      ∧ DesktopUI.widgets a' = DesktopUI.mkWidgets true None 0).
Proof.
  split; [|split].
  - destruct (update_shows_placeholder_or_chart (Image:=nat) (λ _, Ok "PNG")
                (λ buffer, Ok (String.length buffer)) (mkElapse 0 0)
                (DesktopUI.mkApp (Desktop.mkWorld env0 (samples_from 0 1)) DesktopUI.widgets0))
      as (a' & Hrun & _ & Hfew & _).
    exists a'. split; [exact Hrun|]. apply Hfew. vm_compute. lia.
  - destruct (update_shows_placeholder_or_chart (Image:=nat) (λ _, Ok "PNG")
                (λ buffer, Ok (String.length buffer)) (mkElapse 0 0)
                (DesktopUI.mkApp (Desktop.mkWorld env0 (samples_from 0 2)) DesktopUI.widgets0))
      as (a' & Hrun & _ & _ & Hmany).
    exists a'. split; [exact Hrun|].
    destruct Hmany as [Hok _]; [vm_compute; lia|].
    apply (Hok "PNG" 3%nat); reflexivity.
  - destruct (update_shows_placeholder_or_chart (Image:=nat)
                (λ _, Err "zero x-range delta") (λ _, Ok 0%nat) (mkElapse 0 0)
                (DesktopUI.mkApp (Desktop.mkWorld env0 (samples_from 0 2)) DesktopUI.widgets0))
      as (a' & Hrun & _ & _ & Hmany).
    exists a'. split; [exact Hrun|].
    destruct Hmany as [_ Hfail]; [vm_compute; lia|].
    apply Hfail. left. by exists "zero x-range delta".
Defined.

(** X12. An iteration of the update loop that found two samples or more,
    with appends by [doPings] before [renderChart] and between its two
    critical sections. If a sample is appended between the critical
    sections while the history is below 60, the iteration panics. If
    not, the iteration hides the text and hands the chart of the history
    as it is after all the appends to the chart library, whose image it
    shows: the history never shrinks, so [renderChart] does not return
    nil for lack of data. *)
Theorem update_between_appends {Image : Type}
    (graph_Render : Desktop.Chart → result string)
    (image_Decode : string → result Image)
    (l1 l2 : list Desktop.PingResult) (over : Elapse) (a : DesktopUI.App Image) :
  (2 ≤ length (Desktop.results (DesktopUI.world a)) ≤ 60)%nat →
  (l2 ≠ [] → (length (appends l1 (Desktop.results (DesktopUI.world a))) < 60)%nat →
     DesktopUI.update graph_Render image_Decode (records l1) (records l2) over a
     = Panic "index out of range")
  ∧ (l2 = [] ∨ length (appends l1 (Desktop.results (DesktopUI.world a))) = 60%nat →
     ∃ a', DesktopUI.update graph_Render image_Decode (records l1) (records l2) over a
           = Done tt a'
       ∧ Desktop.results (DesktopUI.world a')
         = appends l2 (appends l1 (Desktop.results (DesktopUI.world a)))
       ∧ DesktopUI.loadingText_Hidden (DesktopUI.widgets a') = true
       ∧ ∀ buffer img,
           graph_Render (chart_of (appends l2 (appends l1
                           (Desktop.results (DesktopUI.world a))))) = Ok buffer →
           image_Decode buffer = Ok img →
           DesktopUI.chartImage_Image (DesktopUI.widgets a')
           = Some (DesktopUI.Rendered img)).
Proof.
  intros Hn.
  set (rs := Desktop.results (DesktopUI.world a)) in *.
  set (rs1 := appends l1 rs).
  assert (H1 : length rs1 = ((length rs + length l1) `min` 60)%nat)
    by (subst rs1; apply appends_length; lia).
  assert (H2 : length (appends l2 rs1) = ((length rs1 + length l2) `min` 60)%nat)
    by (apply appends_length; lia).
  rewrite (update_chart _ _ _ _ _ _
             (Desktop.mkWorld (Desktop.env (DesktopUI.world a)) rs1))
    by (fold rs; first [lia | apply records_spec]).
  rewrite renderChart_interleaved_records, renderChart_rest_closed_form.
  cbn [Desktop.results Desktop.env]. rewrite decide_False by lia. split.
  - intros Hl Hlt. rewrite chart_data_grown; [done|].
    destruct l2; [done|]. rewrite H2. simpl. lia.
  - intros Hsame.
    assert (Hlen : length rs1 = length (appends l2 rs1)).
    { rewrite H2. destruct Hsame as [->|H60]; simpl; lia. }
    rewrite Hlen, chart_data_snapshot.
    destruct (graph_Render (chart_of (appends l2 rs1))) as [buffer|e] eqn:HR.
    + destruct (image_Decode buffer) as [img|e] eqn:HD.
      * eexists. split; [done|]. cbn [DesktopUI.world DesktopUI.widgets Desktop.results].
        split; [done|]. split; [done|].
        intros b i Hb Hi. injection Hb as <-. rewrite HD in Hi. by injection Hi as <-.
      * eexists. split; [done|]. cbn [DesktopUI.world DesktopUI.widgets Desktop.results].
        split; [done|]. split; [done|].
        intros b i Hb Hi. injection Hb as <-. congruence.
    + eexists. split; [done|]. cbn [DesktopUI.world DesktopUI.widgets Desktop.results].
      split; [done|]. split; [done|]. intros b i Hb. done.
Qed.

Lemma update_between_appends_witness :
  DesktopUI.update (Image:=nat) (λ _, Ok "PNG") (λ buffer, Ok (String.length buffer))
    (records [sample_at 2]) (records [sample_at 3]) (mkElapse 0 0)
    (DesktopUI.mkApp (Desktop.mkWorld env0 (samples_from 0 2)) DesktopUI.widgets0)
  = Panic "index out of range"
  ∧ ∃ a', DesktopUI.update (Image:=nat) (λ _, Ok "PNG") (λ buffer, Ok (String.length buffer))
            (records [sample_at 2]) (records []) (mkElapse 0 0)
            (DesktopUI.mkApp (Desktop.mkWorld env0 (samples_from 0 2)) DesktopUI.widgets0)
          = Done tt a'
      ∧ Desktop.results (DesktopUI.world a') = samples_from 0 3
      ∧ DesktopUI.chartImage_Image (DesktopUI.widgets a') = Some (DesktopUI.Rendered 3%nat).
Proof.
  split.
  - destruct (update_between_appends (Image:=nat) (λ _, Ok "PNG")
                (λ buffer, Ok (String.length buffer)) [sample_at 2] [sample_at 3]
                (mkElapse 0 0)
                (DesktopUI.mkApp (Desktop.mkWorld env0 (samples_from 0 2)) DesktopUI.widgets0))
      as [Hpanic _]; [vm_compute; lia|].
    apply Hpanic; [discriminate | vm_compute; lia].
  - destruct (update_between_appends (Image:=nat) (λ _, Ok "PNG")
                (λ buffer, Ok (String.length buffer)) [sample_at 2] []
                (mkElapse 0 0)
                (DesktopUI.mkApp (Desktop.mkWorld env0 (samples_from 0 2)) DesktopUI.widgets0))
      as [_ Hok]; [vm_compute; lia|].
    destruct Hok as (a' & Hrun & Hres & _ & Himg); [by left|].
    exists a'. split; [exact Hrun|]. split; [exact Hres|].
    apply (Himg "PNG" 3%nat); reflexivity.
Defined.

(** ** The handlers of the WebSocket servers *)

Section HandlerFacts.
Variable json_Marshal : WsDual.PingResult → result string.

Lemma serve_spec ticks : ∀ s,
  Forall TickEnv_ok ticks →
  WsDual.serve json_Marshal ticks s
  = Done (handler_flow json_Marshal ticks)
      (mkEnv (served_clock (served json_Marshal ticks) (clock s))
         (trace s ++ concat (tick_events json_Marshal <$> served json_Marshal ticks))).
Proof.
  unfold handler_flow, served_clock.
  induction ticks as [|t ticks IH]; intros s Hok.
  - simpl. rewrite (right_id_L [] (++)). by destruct s.
  - apply Forall_cons in Hok as [Ht Hok].
    cbn [WsDual.serve served existsb]. unfold mbind at 1, M_bind at 1.
    rewrite iteration_ok by done.
    destruct (tick_flow json_Marshal t) eqn:Hf; cbn [returned orb].
    + rewrite IH by done. cbn [clock trace fmap list_fmap concat foldl].
      by rewrite <- (assoc_L (++)).
    + cbn [fmap list_fmap concat foldl]. by rewrite app_nil_r.
Qed.

Lemma wsHandler_spec ticks s :
  Forall TickEnv_ok ticks →
  WsDual.wsHandler json_Marshal None ticks s
  = Done (handler_flow json_Marshal ticks)
      (mkEnv (served_clock (served json_Marshal ticks) (clock s))
         (trace s ++ handler_events json_Marshal ticks)).
Proof.
  intros Hok. unfold WsDual.wsHandler, handler_events.
  unfold mbind at 1, M_bind at 1. rewrite serve_spec by done.
  destruct (handler_flow json_Marshal ticks); cbn [returned].
  - by rewrite (right_id_L [] (++)).
  - unfold deferred, emit, env_emit, mbind, M_bind, mret, M_ret. cbn [trace clock].
    by rewrite <- !(assoc_L (++)).
Qed.

Lemma writes_app t u : writes (t ++ u) = writes t ++ writes u.
Proof. apply omap_app. Qed.

Lemma teardowns_app t u : teardowns (t ++ u) = teardowns t ++ teardowns u.
Proof. apply omap_app. Qed.

Lemma writes_probe label url o : writes (probe_events label url o) = [].
Proof. unfold probe_events. by destruct (err o). Qed.

Lemma teardowns_probe label url o : teardowns (probe_events label url o) = [].
Proof. unfold probe_events. by destruct (err o). Qed.

Lemma writes_tick t :
  writes (tick_events json_Marshal t)
  = match json_Marshal (tick_result t) with
    | Err _ => []
    | Ok data => [(data, bool_decide (WsDual.write_err t = None))]
    end.
Proof.
  unfold tick_events. rewrite !writes_app, !writes_probe.
  destruct (json_Marshal (tick_result t)); [|done].
  by destruct (WsDual.write_err t).
Qed.

Lemma requests_tick t :
  requests (tick_events json_Marshal t) = [WsDual.gstaticURL; WsDual.apenwarrURL].
Proof.
  unfold tick_events. rewrite !requests_app, !requests_probe.
  destruct (json_Marshal (tick_result t)); [|done].
  by destruct (WsDual.write_err t).
Qed.

Lemma teardowns_tick t : teardowns (tick_events json_Marshal t) = [].
Proof.
  unfold tick_events. rewrite !teardowns_app, !teardowns_probe.
  destruct (json_Marshal (tick_result t)); [|done].
  by destruct (WsDual.write_err t).
Qed.

Lemma writes_served ticks :
  writes (concat (tick_events json_Marshal <$> served json_Marshal ticks))
  = frames json_Marshal ticks.
Proof.
  induction ticks as [|t ticks IH]; [done|].
  cbn [served frames]. unfold tick_flow.
  destruct (json_Marshal (tick_result t)) as [data|e] eqn:Hm.
  - destruct (WsDual.write_err t) as [e|] eqn:He;
      cbn [fmap list_fmap concat]; rewrite writes_app, writes_tick, Hm, He.
    + reflexivity.
    + by rewrite IH.
  - cbn [fmap list_fmap concat]. by rewrite writes_app, writes_tick, Hm, IH.
Qed.

Lemma requests_served ticks :
  requests (concat (tick_events json_Marshal <$> served json_Marshal ticks))
  = concat (replicate (length (served json_Marshal ticks))
              [WsDual.gstaticURL; WsDual.apenwarrURL]).
Proof.
  induction (served json_Marshal ticks) as [|t l IH]; [done|].
  cbn [fmap list_fmap concat length replicate].
  by rewrite requests_app, requests_tick, IH.
Qed.

Lemma teardowns_served ticks :
  teardowns (concat (tick_events json_Marshal <$> served json_Marshal ticks)) = [].
Proof.
  induction (served json_Marshal ticks) as [|t l IH]; [done|].
  cbn [fmap list_fmap concat]. by rewrite teardowns_app, teardowns_tick, IH.
Qed.

Lemma frames_failed_last ticks : ∀ i data,
  frames json_Marshal ticks !! i = Some (data, false) →
  length (frames json_Marshal ticks) = S i.
Proof.
  induction ticks as [|t ticks IH]; intros i data; [done|].
  cbn [frames]. destruct (json_Marshal (tick_result t)) as [d|e]; [|apply IH].
  destruct (WsDual.write_err t).
  - destruct i; [done|]. simpl. by rewrite lookup_nil.
  - destruct i; [done|]. simpl. intros H. f_equal. by eapply IH.
Qed.

Lemma served_length ticks : (length (served json_Marshal ticks) ≤ length ticks)%nat.
Proof.
  induction ticks as [|t ticks IH]; [done|].
  cbn [served]. destruct (tick_flow json_Marshal t); simpl; lia.
Qed.

Lemma handler_flow_Return ticks :
  handler_flow json_Marshal ticks = Return
  ↔ ∃ t data e, t ∈ ticks ∧ json_Marshal (tick_result t) = Ok data
                ∧ WsDual.write_err t = Some e.
Proof.
  unfold handler_flow.
  destruct (existsb _ ticks) eqn:Hex.
  - split; [intros _|done]. apply existsb_exists in Hex as (t & Hin & Hret).
    rewrite <- list_elem_of_In in Hin. unfold tick_flow in Hret.
    destruct (json_Marshal (tick_result t)) as [data|] eqn:Hm; [|done].
    destruct (WsDual.write_err t) as [e|] eqn:He; [|done]. by exists t, data, e.
  - split; [done|]. intros (t & data & e & Hin & Hm & He).
    assert (existsb (λ t, returned (tick_flow json_Marshal t)) ticks = true); [|congruence].
    apply existsb_exists. exists t. split; [by rewrite <- list_elem_of_In|].
    unfold tick_flow. by rewrite Hm, He.
Qed.
End HandlerFacts.

Lemma frames_all_written (json_Marshal : WsDual.PingResult → result string) ticks :
  Forall (λ t, WsDual.write_err t = None) ticks →
  frames json_Marshal ticks
  = omap (λ t, match json_Marshal (tick_result t) with
               | Ok data => Some (data, true)
               | Err _ => None
               end) ticks.
Proof.
  induction ticks as [|t ticks IH]; intros Hw; [done|].
  apply Forall_cons in Hw as [Ht Hw]. cbn [frames omap list_omap].
  rewrite Ht. destruct (json_Marshal (tick_result t)); by rewrite IH.
Qed.

(** C9. When a write to a viewer fails, its handler logs the error and
    returns: the failed frame was attempted once and is the last event of
    the connection before the ticker is stopped and the connection
    closed; the ticks that follow are not served, so nothing is retried
    or kept for later. The other viewers are still served. A handler has
    no state but its own connection and ticker, and shares with the
    other handlers the environment only: in whatever environment an
    iteration of another handler starts, it measures both targets and
    writes the frame of its tick; and a handler run from the environment
    the failed one left writes the frames of its own ticks, in order,
    every one of them when none of its own writes fails. *)
Theorem C9_send_failure_tears_down_viewer
    (json_Marshal : WsDual.PingResult → result string)
    (pre post : list WsDual.TickEnv) (t : WsDual.TickEnv) (data e : string) (s : Env)
    (others : list WsDual.TickEnv) (tj : WsDual.TickEnv) (dj : string) (sj : Env) :
  Forall TickEnv_ok pre → TickEnv_ok t →
  Forall (λ t, tick_flow json_Marshal t = Continue) pre →
  json_Marshal (tick_result t) = Ok data → WsDual.write_err t = Some e →
  Forall TickEnv_ok others →
  TickEnv_ok tj → json_Marshal (tick_result tj) = Ok dj → WsDual.write_err tj = None →
  (∃ s', WsDual.wsHandler json_Marshal None (pre ++ t :: post) s = Done Return s'
      ∧ WsDual.wsHandler json_Marshal None (pre ++ [t]) s = Done Return s'
      ∧ trace s'
        = trace s ++ concat (tick_events json_Marshal <$> pre)
          ++ probe_events "Gstatic ping error:" WsDual.gstaticURL (WsDual.getG t)
          ++ probe_events "Apennwarr ping error:" WsDual.apenwarrURL (WsDual.getA t)
          ++ [EvWrite data false; EvLog ("WebSocket Write error:" +:+ " " +:+ e);
              EvTickerStop; EvConnClose]
      ∧ ∃ s'', WsDual.wsHandler json_Marshal None others s'
               = Done (handler_flow json_Marshal others) s''
          ∧ writes (trace s'') = writes (trace s') ++ frames json_Marshal others
          ∧ (Forall (λ t, WsDual.write_err t = None) others →
               handler_flow json_Marshal others = Continue
               ∧ frames json_Marshal others
                 = omap (λ t, match json_Marshal (tick_result t) with
                              | Ok data => Some (data, true)
                              | Err _ => None
                              end) others))
  ∧ WsDual.iteration json_Marshal tj sj
    = Done Continue
        (mkEnv (tick_clock tj (clock sj))
           (trace sj
            ++ probe_events "Gstatic ping error:" WsDual.gstaticURL (WsDual.getG tj)
            ++ probe_events "Apennwarr ping error:" WsDual.apenwarrURL (WsDual.getA tj)
            ++ [EvWrite dj true])).
Proof.
  intros Hpre Ht Hcont Hm He Hothers Htj Hmj Hej.
  assert (Hflow : tick_flow json_Marshal t = Return)
    by (unfold tick_flow; by rewrite Hm, He).
  assert (Hev : tick_events json_Marshal t
      = probe_events "Gstatic ping error:" WsDual.gstaticURL (WsDual.getG t)
        ++ probe_events "Apennwarr ping error:" WsDual.apenwarrURL (WsDual.getA t)
        ++ [EvWrite data false; EvLog ("WebSocket Write error:" +:+ " " +:+ e)])
    by (unfold tick_events; by rewrite Hm, He).
  split.
  - assert (Hserve : ∀ rest,
        WsDual.wsHandler json_Marshal None (pre ++ t :: rest) s
        = Done Return
            (mkEnv (tick_clock t (foldl (λ c t, tick_clock t c) (clock s) pre))
               ((trace s ++ concat (tick_events json_Marshal <$> pre))
                ++ tick_events json_Marshal t ++ [EvTickerStop; EvConnClose]))).
    { intros rest. unfold WsDual.wsHandler.
      unfold mbind at 1, M_bind at 1. rewrite serve_continues by done.
      cbn [WsDual.serve]. unfold mbind at 1, M_bind at 1. rewrite iteration_ok by done.
      rewrite Hflow. unfold deferred, emit, env_emit, mbind, M_bind, mret, M_ret.
      cbn [trace clock]. rewrite <- !(assoc_L (++)). reflexivity. }
    eexists. split; [apply Hserve|]. split; [apply Hserve|]. split.
    + cbn [trace]. rewrite Hev. by rewrite <- !(assoc_L (++)).
    + eexists. split; [by apply wsHandler_spec|]. split.
      * cbn [trace]. rewrite writes_app. f_equal.
        unfold handler_events. rewrite writes_app, writes_served.
        destruct (returned _); simpl; by rewrite app_nil_r.
      * intros Hw. split; [|by apply frames_all_written].
        unfold handler_flow.
        destruct (existsb _ others) eqn:Hex; [|done].
        apply existsb_exists in Hex as (t' & Hin & Hret).
        rewrite Forall_forall in Hw. rewrite <- list_elem_of_In in Hin.
        specialize (Hw t' Hin). unfold tick_flow in Hret. rewrite Hw in Hret.
        by destruct (json_Marshal (tick_result t')).
  - rewrite iteration_ok by done. unfold tick_flow, tick_events.
    rewrite Hmj, Hej. by rewrite bool_decide_true.
Qed.

Lemma C9_send_failure_tears_down_viewer_witness :
  ∃ s', WsDual.wsHandler marshal_stub None
          ([tick_ok_1] ++ tick_write_fails :: [tick_ok_1; tick_ok_1]) env0
        = Done Return s'
    ∧ writes (trace s') = [("{G:ok}", true); ("{G:ok}", false)]
    ∧ (∃ s'', WsDual.wsHandler marshal_stub None [tick_ok_1; tick_G_down] s'
              = Done Continue s''
         ∧ writes (trace s'')
           = [("{G:ok}", true); ("{G:ok}", false); ("{G:ok}", true); ("{G:-1}", true)])
    ∧ ∃ sj', WsDual.iteration marshal_stub tick_G_down s' = Done Continue sj'
         ∧ writes (trace sj') = [("{G:ok}", true); ("{G:ok}", false); ("{G:-1}", true)].
Proof.
  assert (Hrun : ∃ s', WsDual.wsHandler marshal_stub None
                         ([tick_ok_1] ++ tick_write_fails :: [tick_ok_1; tick_ok_1]) env0
                       = Done Return s') by (eexists; reflexivity).
  destruct Hrun as [s0 Hs0].
  destruct (C9_send_failure_tears_down_viewer marshal_stub
              [tick_ok_1] [tick_ok_1; tick_ok_1] tick_write_fails
              "{G:ok}" "broken pipe" env0 [tick_ok_1; tick_G_down]
              tick_G_down "{G:-1}" s0)
    as [(s' & Hfail & _ & Htr & s'' & Hserved & Hw & Hall) Hiter].
  - repeat constructor; try discriminate; simpl; lia.
  - exact tick_write_fails_ok.
  - repeat constructor.
  - reflexivity.
  - reflexivity.
  - repeat apply Forall_cons_2; try apply Forall_nil_2;
      repeat split; try discriminate; simpl; lia.
  - repeat split; try discriminate; simpl; lia.
  - reflexivity.
  - reflexivity.
  - assert (s0 = s') as -> by congruence.
    assert (Hws : writes (trace s') = [("{G:ok}", true); ("{G:ok}", false)])
      by (rewrite Htr; reflexivity).
    destruct Hall as [Hcont _]; [repeat constructor|].
    exists s'. split; [exact Hfail|]. split; [exact Hws|]. split.
    + exists s''. split; [by rewrite <- Hcont|]. rewrite Hw, Hws. reflexivity.
    + eexists. split; [exact Hiter|]. cbn [trace].
      rewrite !writes_app, Hws, !writes_probe. reflexivity.
Defined.

Lemma served_all (json_Marshal : WsDual.PingResult → result string) ticks :
  handler_flow json_Marshal ticks = Continue → served json_Marshal ticks = ticks.
Proof.
  unfold handler_flow. induction ticks as [|t ticks IH]; [done|].
  cbn [existsb served]. destruct (tick_flow json_Marshal t); cbn [returned orb]; [|done].
  intros H. by rewrite IH.
Qed.

(** X13. A handler of the two-target server writes its frames in the
    order of the ticks: one frame per tick, the encoding of the record of
    that tick; a tick whose record cannot be encoded writes nothing and
    the handler goes on; the first write that fails is the last write. *)
Theorem handler_writes_frames_in_order
    (json_Marshal : WsDual.PingResult → result string)
    (ticks : list WsDual.TickEnv) (s : Env) :
  Forall TickEnv_ok ticks →
  ∃ f s', WsDual.wsHandler json_Marshal None ticks s = Done f s'
    ∧ writes (trace s') = writes (trace s) ++ frames json_Marshal ticks
    ∧ (length (frames json_Marshal ticks) ≤ length ticks)%nat
    ∧ ∀ i data, frames json_Marshal ticks !! i = Some (data, false) →
        length (frames json_Marshal ticks) = S i.
Proof.
  intros Hok. eexists _, _. split; [by apply wsHandler_spec|].
  cbn [trace]. split; [|split].
  - unfold handler_events. rewrite !writes_app, writes_served.
    destruct (returned _); simpl; by rewrite app_nil_r.
  - clear. induction ticks as [|t ticks IH]; [done|].
    cbn [frames]. destruct (json_Marshal (tick_result t)); [|simpl; lia].
    destruct (WsDual.write_err t); simpl; lia.
  - apply frames_failed_last.
Qed.

Lemma handler_writes_frames_in_order_witness :
  ∃ f s', WsDual.wsHandler marshal_stub None
            [tick_ok_1; tick_G_down; tick_write_fails; tick_ok_1] env0 = Done f s'
    ∧ writes (trace s') = [("{G:ok}", true); ("{G:-1}", true); ("{G:ok}", false)].
Proof.
  destruct (handler_writes_frames_in_order marshal_stub
              [tick_ok_1; tick_G_down; tick_write_fails; tick_ok_1] env0)
    as (f & s' & Hrun & Hw & _).
  - repeat apply Forall_cons_2; try apply Forall_nil_2;
      repeat split; try discriminate; simpl; lia.
  - exists f, s'. split; [exact Hrun|]. rewrite Hw. reflexivity.
Defined.

(** X14. A handler that got its connection returns exactly when a write
    fails; a record that cannot be encoded never ends it. When it
    returns, stopping the ticker and closing the connection are its last
    two events and happen once; while it serves, neither happens. A
    handler whose upgrade failed only logs the error. *)
Theorem handler_returns_when_a_write_fails
    (json_Marshal : WsDual.PingResult → result string)
    (ticks : list WsDual.TickEnv) (s : Env) :
  Forall TickEnv_ok ticks →
  (∃ f s', WsDual.wsHandler json_Marshal None ticks s = Done f s'
     ∧ (f = Return ↔ ∃ t data e, t ∈ ticks ∧ json_Marshal (tick_result t) = Ok data
                                 ∧ WsDual.write_err t = Some e)
     ∧ teardowns (trace s')
       = teardowns (trace s) ++ (if returned f then [EvTickerStop; EvConnClose] else [])
     ∧ (f = Return → ∃ pre, trace s' = pre ++ [EvTickerStop; EvConnClose]))
  ∧ ∀ e, WsDual.wsHandler json_Marshal (Some e) ticks s
         = Done Return (mkEnv (clock s)
                          (trace s ++ [EvLog ("Upgrade error:" +:+ " " +:+ e)])).
Proof.
  intros Hok. split; [|done].
  eexists _, _. split; [by apply wsHandler_spec|]. cbn [trace].
  split; [apply handler_flow_Return|]. split.
  - unfold handler_events. rewrite !teardowns_app, teardowns_served.
    by destruct (returned _).
  - intros Hf. unfold handler_events. rewrite Hf. cbn [returned].
    eexists. by rewrite (assoc_L (++)).
Qed.

Lemma handler_returns_when_a_write_fails_witness :
  ∃ s', WsDual.wsHandler marshal_stub None
          [tick_ok_1; tick_write_fails; tick_ok_1] env0 = Done Return s'
    ∧ teardowns (trace s') = [EvTickerStop; EvConnClose].
Proof.
  destruct (handler_returns_when_a_write_fails marshal_stub
              [tick_ok_1; tick_write_fails; tick_ok_1] env0)
    as [(f & s' & Hrun & Hiff & Htd & _) _].
  - repeat apply Forall_cons_2; try apply Forall_nil_2;
      repeat split; try discriminate; simpl; lia.
  - assert (Hf : f = Return).
    { apply Hiff. exists tick_write_fails, "{G:ok}", "broken pipe".
      split; [|split; reflexivity]. apply list_elem_of_In. simpl. tauto. }
    subst f. exists s'. split; [exact Hrun|]. rewrite Htd. reflexivity.
Defined.

(** X15. A handler issues two requests, gstatic then apenwarr, for
    every tick it serves, also when the record is not encoded or the
    write fails, and none for the ticks after a failed write; while no
    write fails it serves every tick. *)
Theorem handler_requests_per_tick
    (json_Marshal : WsDual.PingResult → result string)
    (ticks : list WsDual.TickEnv) (s : Env) :
  Forall TickEnv_ok ticks →
  ∃ f s', WsDual.wsHandler json_Marshal None ticks s = Done f s'
    ∧ requests (trace s')
      = requests (trace s)
        ++ concat (replicate (length (served json_Marshal ticks))
                     [WsDual.gstaticURL; WsDual.apenwarrURL])
    ∧ (length (served json_Marshal ticks) ≤ length ticks)%nat
    ∧ (f = Continue → served json_Marshal ticks = ticks).
Proof.
  intros Hok. eexists _, _. split; [by apply wsHandler_spec|]. cbn [trace].
  split; [|split].
  - unfold handler_events. rewrite !requests_app, requests_served.
    destruct (returned _); simpl; by rewrite app_nil_r.
  - apply served_length.
  - apply served_all.
Qed.

Lemma handler_requests_per_tick_witness :
  ∃ f s', WsDual.wsHandler marshal_stub None
            [tick_ok_1; tick_write_fails; tick_ok_1; tick_ok_1] env0 = Done f s'
    ∧ requests (trace s')
      = [WsDual.gstaticURL; WsDual.apenwarrURL; WsDual.gstaticURL; WsDual.apenwarrURL].
Proof.
  destruct (handler_requests_per_tick marshal_stub
              [tick_ok_1; tick_write_fails; tick_ok_1; tick_ok_1] env0)
    as (f & s' & Hrun & Hreq & _).
  - repeat apply Forall_cons_2; try apply Forall_nil_2;
      repeat split; try discriminate; simpl; lia.
  - exists f, s'. split; [exact Hrun|]. rewrite Hreq. reflexivity.
Defined.

(** ** The handler of the single-target server *)

Section SingleFacts.
Variable json_Marshal : WsSingle.PingResult → result string.

Lemma single_iteration_ok t s :
  GetOutcome_ok (WsSingle.get t) →
  WsSingle.iteration json_Marshal t s
  = Done (single_flow json_Marshal t)
      (mkEnv (single_clock t (clock s)) (trace s ++ single_events json_Marshal t)).
Proof.
  intros Hok. unfold WsSingle.iteration.
  unfold mbind at 1, M_bind at 1. rewrite single_measure_spec by done.
  unfold single_flow, single_events. fold (single_result t).
  destruct (json_Marshal (single_result t)) as [data|e].
  - unfold conn_WriteMessage, log_Println, emit, env_emit, probe_env, env_pass,
      single_clock, mbind, M_bind, mret, M_ret. cbn [trace clock clk_wall clk_mono].
    destruct (WsSingle.write_err t) as [e|]; cbn [trace clock];
      by rewrite <- !(assoc_L (++)).
  - unfold log_Println, emit, env_emit, probe_env, env_pass, single_clock,
      mbind, M_bind, mret, M_ret. cbn [trace clock clk_wall clk_mono].
    by rewrite <- !(assoc_L (++)).
Qed.

Lemma single_serve_spec ticks : ∀ s,
  Forall (λ t, GetOutcome_ok (WsSingle.get t)) ticks →
  WsSingle.serve json_Marshal ticks s
  = Done (single_handler_flow json_Marshal ticks)
      (mkEnv (foldl (λ c t, single_clock t c) (clock s) (single_served json_Marshal ticks))
         (trace s
          ++ concat (single_events json_Marshal <$> single_served json_Marshal ticks))).
Proof.
  unfold single_handler_flow.
  induction ticks as [|t ticks IH]; intros s Hok.
  - simpl. rewrite app_nil_r. by destruct s.
  - apply Forall_cons in Hok as [Ht Hok].
    cbn [WsSingle.serve single_served existsb]. unfold mbind at 1, M_bind at 1.
    rewrite single_iteration_ok by done.
    destruct (single_flow json_Marshal t) eqn:Hf; cbn [returned orb].
    + rewrite IH by done. cbn [clock trace fmap list_fmap concat foldl].
      by rewrite <- (assoc_L (++)).
    + cbn [fmap list_fmap concat foldl]. by rewrite app_nil_r.
Qed.

Lemma single_wsHandler_spec ticks s :
  Forall (λ t, GetOutcome_ok (WsSingle.get t)) ticks →
  WsSingle.wsHandler json_Marshal None ticks s
  = Done (single_handler_flow json_Marshal ticks)
      (mkEnv (foldl (λ c t, single_clock t c) (clock s) (single_served json_Marshal ticks))
         (trace s ++ single_handler_events json_Marshal ticks)).
Proof.
  intros Hok. unfold WsSingle.wsHandler, single_handler_events.
  unfold mbind at 1, M_bind at 1. rewrite single_serve_spec by done.
  destruct (single_handler_flow json_Marshal ticks); cbn [returned].
  - by rewrite app_nil_r.
  - unfold deferred, emit, env_emit, mbind, M_bind, mret, M_ret. cbn [trace clock].
    by rewrite <- !(assoc_L (++)).
Qed.

Lemma writes_single t :
  writes (single_events json_Marshal t)
  = match json_Marshal (single_result t) with
    | Err _ => []
    | Ok data => [(data, bool_decide (WsSingle.write_err t = None))]
    end.
Proof.
  unfold single_events. rewrite !writes_app, !writes_probe.
  destruct (json_Marshal (single_result t)); [|done].
  by destruct (WsSingle.write_err t).
Qed.

Lemma requests_single t :
  requests (single_events json_Marshal t) = [WsSingle.targetURL].
Proof.
  unfold single_events. rewrite !requests_app, !requests_probe.
  destruct (json_Marshal (single_result t)); [|done].
  by destruct (WsSingle.write_err t).
Qed.

Lemma teardowns_single t : teardowns (single_events json_Marshal t) = [].
Proof.
  unfold single_events. rewrite !teardowns_app, !teardowns_probe.
  destruct (json_Marshal (single_result t)); [|done].
  by destruct (WsSingle.write_err t).
Qed.

Lemma writes_single_served ticks :
  writes (concat (single_events json_Marshal <$> single_served json_Marshal ticks))
  = single_frames json_Marshal ticks.
Proof.
  induction ticks as [|t ticks IH]; [done|].
  cbn [single_served single_frames]. unfold single_flow.
  destruct (json_Marshal (single_result t)) as [data|e] eqn:Hm.
  - destruct (WsSingle.write_err t) as [e|] eqn:He;
      cbn [fmap list_fmap concat]; rewrite writes_app, writes_single, Hm, He.
    + reflexivity.
    + by rewrite IH.
  - cbn [fmap list_fmap concat]. by rewrite writes_app, writes_single, Hm, IH.
Qed.

Lemma requests_single_served ticks :
  requests (concat (single_events json_Marshal <$> single_served json_Marshal ticks))
  = replicate (length (single_served json_Marshal ticks)) WsSingle.targetURL.
Proof.
  induction (single_served json_Marshal ticks) as [|t l IH]; [done|].
  cbn [fmap list_fmap concat length replicate].
  by rewrite requests_app, requests_single, IH.
Qed.

Lemma teardowns_single_served ticks :
  teardowns (concat (single_events json_Marshal <$> single_served json_Marshal ticks)) = [].
Proof.
  induction (single_served json_Marshal ticks) as [|t l IH]; [done|].
  cbn [fmap list_fmap concat]. by rewrite teardowns_app, teardowns_single, IH.
Qed.

Lemma single_frames_failed_last ticks : ∀ i data,
  single_frames json_Marshal ticks !! i = Some (data, false) →
  length (single_frames json_Marshal ticks) = S i.
Proof.
  induction ticks as [|t ticks IH]; intros i data; [done|].
  cbn [single_frames]. destruct (json_Marshal (single_result t)) as [d|e]; [|apply IH].
  destruct (WsSingle.write_err t).
  - destruct i; [done|]. simpl. by rewrite lookup_nil.
  - destruct i; [done|]. simpl. intros H. f_equal. by eapply IH.
Qed.
Lemma single_handler_flow_Return ticks :
  single_handler_flow json_Marshal ticks = Return
  ↔ ∃ t data e, t ∈ ticks ∧ json_Marshal (single_result t) = Ok data
                ∧ WsSingle.write_err t = Some e.
Proof.
  unfold single_handler_flow.
  destruct (existsb _ ticks) eqn:Hex.
  - split; [intros _|done]. apply existsb_exists in Hex as (t & Hin & Hret).
    rewrite <- list_elem_of_In in Hin. unfold single_flow in Hret.
    destruct (json_Marshal (single_result t)) as [data|] eqn:Hm; [|done].
    destruct (WsSingle.write_err t) as [e|] eqn:He; [|done]. by exists t, data, e.
  - split; [done|]. intros (t & data & e & Hin & Hm & He).
    assert (existsb (λ t, returned (single_flow json_Marshal t)) ticks = true);
      [|congruence].
    apply existsb_exists. exists t. split; [by rewrite <- list_elem_of_In|].
    unfold single_flow. by rewrite Hm, He.
Qed.
End SingleFacts.

(** X17. The handler of the single-target server issues one request per
    tick it serves and writes one frame per tick, in order, skipping a
    record that cannot be encoded; the first write that fails is its last
    write, after which it stops the ticker and closes the connection,
    once, and serves no further tick. *)
Theorem single_handler_serves_until_a_write_fails
    (json_Marshal : WsSingle.PingResult → result string)
    (ticks : list WsSingle.TickEnv) (s : Env) :
  Forall (λ t, GetOutcome_ok (WsSingle.get t)) ticks →
  ∃ f s', WsSingle.wsHandler json_Marshal None ticks s = Done f s'
    ∧ writes (trace s') = writes (trace s) ++ single_frames json_Marshal ticks
    ∧ (∀ i data, single_frames json_Marshal ticks !! i = Some (data, false) →
         length (single_frames json_Marshal ticks) = S i)
    ∧ requests (trace s')
      = requests (trace s)
        ++ replicate (length (single_served json_Marshal ticks)) WsSingle.targetURL
    ∧ teardowns (trace s')
      = teardowns (trace s) ++ (if returned f then [EvTickerStop; EvConnClose] else [])
    ∧ (f = Return ↔
         ∃ t data e, t ∈ ticks ∧ json_Marshal (single_result t) = Ok data
                     ∧ WsSingle.write_err t = Some e).
Proof.
  intros Hok. eexists _, _. split; [by apply single_wsHandler_spec|]. cbn [trace].
  unfold single_handler_events.
  split; [|split; [|split; [|split]]].
  - rewrite !writes_app, writes_single_served.
    destruct (returned _); simpl; by rewrite app_nil_r.
  - apply single_frames_failed_last.
  - rewrite !requests_app, requests_single_served.
    destruct (returned _); simpl; by rewrite app_nil_r.
  - rewrite !teardowns_app, teardowns_single_served. by destruct (returned _).
  - apply single_handler_flow_Return.
Qed.

Lemma single_handler_serves_until_a_write_fails_witness :
  ∃ f s', WsSingle.wsHandler single_marshal_stub None
            [single_tick_ok; single_tick_down; single_tick_write_fails; single_tick_ok]
            env0 = Done f s'
    ∧ writes (trace s') = [("{latency:ok}", true); ("{latency:ok}", false)]
    ∧ requests (trace s')
      = [WsSingle.targetURL; WsSingle.targetURL; WsSingle.targetURL].
Proof.
  destruct (single_handler_serves_until_a_write_fails single_marshal_stub
              [single_tick_ok; single_tick_down; single_tick_write_fails; single_tick_ok]
              env0)
    as (f & s' & Hrun & Hw & _ & Hreq & _).
  - repeat apply Forall_cons_2; try apply Forall_nil_2;
      repeat split; try discriminate; simpl; lia.
  - exists f, s'. split; [exact Hrun|]. split.
    + rewrite Hw. reflexivity.
    + rewrite Hreq. reflexivity.
Defined.

(** ** The values handed to the chart *)

Lemma digits2_iter_xO m k :
  digits2_pos (Pos.iter xO m k) = (digits2_pos m + k)%positive.
Proof.
  induction k as [|k IH] using Pos.peano_ind.
  - simpl. lia.
  - rewrite Pos.iter_succ. simpl. rewrite IH. lia.
Qed.

Lemma Zpos_iter_xO m k : Zpos (Pos.iter xO m k) = Zpos m * 2 ^ Zpos k.
Proof.
  induction k as [|k IH] using Pos.peano_ind.
  - simpl. lia.
  - rewrite Pos.iter_succ, Pos2Z.inj_xO, IH, Pos2Z.inj_succ, Z.pow_succ_r by lia. lia.
Qed.

Lemma digits2_le m n : Zpos m < 2 ^ n → 0 ≤ n → Zpos (digits2_pos m) ≤ n.
Proof.
  revert n. induction m as [m IH|m IH|]; intros n Hm Hn; simpl digits2_pos.
  - rewrite Pos2Z.inj_succ.
    destruct (decide (n = 0)) as [->|]; [simpl in Hm; lia|].
    assert (Zpos m < 2 ^ (n - 1)).
    { replace n with (Z.succ (n - 1)) in Hm by lia. rewrite Z.pow_succ_r in Hm by lia. lia. }
    specialize (IH (n - 1)). lia.
  - rewrite Pos2Z.inj_succ.
    destruct (decide (n = 0)) as [->|]; [simpl in Hm; lia|].
    assert (Zpos m < 2 ^ (n - 1)).
    { replace n with (Z.succ (n - 1)) in Hm by lia. rewrite Z.pow_succ_r in Hm by lia. lia. }
    specialize (IH (n - 1)). lia.
  - destruct (decide (n = 0)) as [->|]; [simpl in Hm; lia|]. lia.
Qed.

Lemma binary_round_aux_canonical sx mz ez :
  digits2_pos mz = 53%positive → -1074 ≤ ez ≤ 971 →
  binary_round_aux 53 1024 sx (Zpos mz) ez loc_Exact = S754_finite sx mz ez.
Proof.
  intros Hd He.
  assert (E : fexp 53 1024 (Zdigits2 (Zpos mz) + ez) - ez = 0).
  { unfold fexp, emin, Zdigits2. rewrite Hd. lia. }
  unfold binary_round_aux, shr_fexp. rewrite E. cbn [shr shr_record_of_loc shr_m loc_of_shr_record round_nearest_even].
  rewrite E. cbn [shr shr_record_of_loc shr_m].
  destruct (Z.leb_spec ez (1024 - 53)); [done | lia].
Qed.

Lemma binary_round_small sx m :
  Zpos m < 2 ^ 53 →
  ∃ mz ez, binary_round 53 1024 sx m 0 = S754_finite sx mz ez
           ∧ -52 ≤ ez ≤ 0 ∧ Zpos mz = Zpos m * 2 ^ (- ez).
Proof.
  intros Hm. pose proof (digits2_le m 53 Hm ltac:(lia)) as Hd.
  unfold binary_round.
  assert (E : fexp 53 1024 (Zpos (digits2_pos m) + 0) = Zpos (digits2_pos m) - 53).
  { unfold fexp, emin. lia. }
  rewrite E. unfold shl_align.
  destruct (Zpos (digits2_pos m) - 53 - 0) as [|k|k] eqn:Hk; [|lia|].
  - exists m, 0. split; [|split; [lia | simpl; lia]].
    apply binary_round_aux_canonical; [|lia]. lia.
  - exists (Pos.iter xO m k), (Zpos (digits2_pos m) - 53).
    split; [|split; [lia|]].
    + apply binary_round_aux_canonical; [|lia]. rewrite digits2_iter_xO. lia.
    + rewrite Zpos_iter_xO. f_equal. f_equal. lia.
Qed.

Lemma float64_to_Z_finite s mz ez m :
  -52 ≤ ez ≤ 0 → Zpos mz = Zpos m * 2 ^ (- ez) →
  float64_to_Z (S754_finite s mz ez) = cond_Zopp s (Zpos m).
Proof.
  intros He Hm. unfold float64_to_Z. f_equal.
  destruct (Z.leb_spec 0 ez).
  - assert (ez = 0) as -> by lia. simpl in *. lia.
  - rewrite Hm. apply Z.div_mul. apply Z.pow_nonzero; lia.
Qed.

Lemma float64_exact z : - 2 ^ 53 < z < 2 ^ 53 → float64_to_Z (float64 z) = z.
Proof.
  intros Hz. unfold float64, binary_normalize. destruct z as [|m|m]; [done| |].
  - destruct (binary_round_small false m) as (mz & ez & -> & He & Hm); [lia|].
    by rewrite (float64_to_Z_finite _ _ _ m).
  - destruct (binary_round_small true m) as (mz & ez & -> & He & Hm); [lia|].
    by rewrite (float64_to_Z_finite _ _ _ m).
Qed.

(** X18. [float64] of an [int64] below 2^53 in absolute value is exact:
    the binary64 number stands for that integer, so two different
    latencies are never plotted at the same height, and the -1 of a
    failed probe at none that a measured latency has. The bound is
    sharp: 2^53 and 2^53 + 1 give the same number. *)
Theorem plotted_values_are_exact (z1 z2 : Z) :
  - 2 ^ 53 < z1 < 2 ^ 53 → - 2 ^ 53 < z2 < 2 ^ 53 →
  float64_to_Z (float64 z1) = z1
  ∧ (float64 z1 = float64 z2 → z1 = z2)
  ∧ (0 ≤ z1 → float64 z1 ≠ float64 (-1))
  ∧ float64 (2 ^ 53) = float64 (2 ^ 53 + 1).
Proof.
  intros H1 H2.
  assert (Hinj : ∀ a b, - 2 ^ 53 < a < 2 ^ 53 → - 2 ^ 53 < b < 2 ^ 53 →
                        float64 a = float64 b → a = b).
  { intros a b Ha Hb E. rewrite <- (float64_exact a), <- (float64_exact b) by done.
    by rewrite E. }
  split; [by apply float64_exact|]. split; [by apply Hinj|]. split; [|reflexivity].
  intros Hpos E. apply Hinj in E; lia.
Qed.

Lemma plotted_values_are_exact_witness :
  float64_to_Z (float64 250) = 250
  ∧ float64 250 ≠ float64 (-1).
Proof.
  destruct (plotted_values_are_exact 250 (-1)) as (Hex & _ & Hne & _); [lia | lia |].
  split; [exact Hex | apply Hne; lia].
Defined.
